(** * NBAShortener: the dynamic reframing engine

    A shallow embedding of [src/modules/ball_tracker.py] (class
    [PlayerTracker]), of the crop geometry and the clip list of
    [src/modules/clipper.py] ([VideoClipper._format_with_ball_tracking]
    with its inner function [make_frame], [create_all_clips]) and of
    [src/modules/fusion.py] ([HighlightFusion.fuse]), whose result
    [process_video] hands to [create_all_clips].

    Conventions of the embedding.
    - Python [int] is [Z]; [//] by a positive literal is [Z.div] (floor);
      [int(v)] on a float is truncation toward zero.
    - Python and NumPy floats are exact rationals ([Q]): the model keeps
      the arithmetic of the source and leaves binary64 rounding out.
    - A call that can raise returns in the error monad [sum exn]; the
      modelled code raises [ZeroDivisionError] on a zero divisor and
      [cv2.error] when [cv2.resize] is given an empty size.
    - OpenCV is a collaborator: what it computes from the pixels of a
      frame (contours and their moments, HOG person boxes, the CSRT
      tracker) is a parameter of the development. *)

From Stdlib Require Import ZArith QArith Qabs Reals List Bool Lia Lqa Sorted Permutation.
From Stdlib Require String.
From ExtLib Require Import Structures.Monad Data.Monads.EitherMonad.
Import ListNotations.
Import MonadNotation.
Local Open Scope monad_scope.
Local Open Scope Z_scope.

(** ** Fragments of the Python and NumPy runtime used by the source *)

Module Py.

Inductive exn : Type :=
| ZeroDivisionError
| cv2_error.

(** Outcome of a Python call: [inl e] when it raises [e]. *)
Abbreviation py := (sum exn).

Definition raise {A : Type} (e : exn) : py A := inl e.

(** [int(v)] for a float [v]: truncation toward zero. *)
Definition int_of_float (v : Q) : Z := Z.quot (Qnum v) (Zpos (Qden v)).

(** [a / b] on floats. *)
Definition truediv (a b : Q) : py Q :=
  if Qeq_bool b 0 then raise ZeroDivisionError else ret (a / b)%Q.

(** [a % b] on ints. *)
Definition mod_ (a b : Z) : py Z :=
  if b =? 0 then raise ZeroDivisionError else ret (a mod b).

(** [a < b] on floats. *)
Definition flt (a b : Q) : bool := negb (Qle_bool b a).

(** One step of [max]: a later item replaces the best one only when
    its key is strictly larger. *)
Definition keep_larger {A : Type} (key : A -> Q) (best c : A) : A :=
  if flt (key best) (key c) then c else best.

(** [max(items, key=key)]: the first item whose key is maximal; the
    model gives [None] for an empty sequence, which the source never
    passes. *)
Definition max_by {A : Type} (key : A -> Q) (items : list A) : option A :=
  match items with
  | [] => None
  | x :: rest => Some (fold_left (keep_larger key) rest x)
  end.

(** [sum(values)] on floats. *)
Definition fsum (values : list Q) : Q := fold_left Qplus values 0%Q.

(** Sample [i] of [np.linspace]: [start + i * step] with
    [step = (stop - start) / div] and [div = num - 1]. *)
Definition linspace_sample (start stop : Q) (div i : nat) : Q :=
  (start + inject_Z (Z.of_nat i) * ((stop - start) / inject_Z (Z.of_nat div)))%Q.

(** [np.linspace(start, stop, num)] with the default [endpoint=True]:
    [num] evenly spaced samples, the single sample being [start]. *)
Definition linspace (start stop : Q) (num : nat) : list Q :=
  match num with
  | O => []
  | S O => [start]
  | S div => map (linspace_sample start stop div) (seq 0 num)
  end.

(** [np.average(values, weights=weights)]: NumPy raises
    [ZeroDivisionError] when the weights sum to zero. *)
Definition average (values weights : list Q) : py Q :=
  let scl := fsum weights in
  if Qeq_bool scl 0 then raise ZeroDivisionError
  else ret (fsum (map (fun vw => (fst vw * snd vw)%Q) (combine values weights)) / scl)%Q.

End Py.

Import Py.

(** ** [ball_tracker.py]: class [PlayerTracker] *)

Module BallTracker.

Abbreviation point := (Z * Z)%type.

(** A bounding box [(x, y, w, h)]. *)
Abbreviation box := (Z * Z * Z * Z)%type.

(** What the source reads from an OpenCV contour: [cv2.contourArea] and
    the entries [m00], [m10], [m01] of [cv2.moments]. *)
Record contour : Type := mkContour {
  contourArea : Q;
  m00 : Q;
  m10 : Q;
  m01 : Q
}.

(** Center of a box as both loops of [find_player_with_ball] compute it. *)
Definition box_center (b : box) : point :=
  let '(x, y, w, h) := b in (x + w / 2, y + h / 2).

(** Square of the distance that [np.sqrt((ax - bx)**2 + (ay - by)**2)]
    takes the root of. *)
Definition dist2 (a b : point) : Z :=
  (fst a - fst b) ^ 2 + (snd a - snd b) ^ 2.

(** The loop shared by both branches of [find_player_with_ball]:
    [min_dist = inf], [closest = None], then every box whose center is
    strictly nearer than [min_dist] replaces the pair. [np.sqrt] is
    strictly increasing on the integers it is applied to, so the test
    [dist < min_dist] is the same test on the squares; [None] stands
    for [min_dist = inf]. *)
Definition nearest_step (target : point) (acc : option (Z * point)) (b : box)
  : option (Z * point) :=
  let c := box_center b in
  let d := dist2 target c in
  match acc with
  | None => Some (d, c)
  | Some (min_d, _) => if d <? min_d then Some (d, c) else acc
  end.

Definition nearest_center (target : point) (players : list box) : option (Z * point) :=
  fold_left (nearest_step target) players None.

(** [min_dist < 200] on the square of [min_dist]. *)
Definition ball_match_radius : Z := 200.

(** Lines 129-146 of [find_player_with_ball]: the value of the
    [return closest_player] when it is reached, [None] when control
    falls through to the fallback. *)
Definition ball_match (ball_pos : option point) (players : list box) : option point :=
  match ball_pos with
  | Some ball =>
      match nearest_center ball players with
      | Some (min_d, closest_player) =>
          if min_d <? ball_match_radius ^ 2 then Some closest_player else None
      | None => None
      end
  | None => None
  end.

(** Lines 148-165: the player nearest to the center of the frame;
    [shape] is [frame.shape[:2]], that is [(height, width)]. *)
Definition center_fallback (players : list box) (shape : Z * Z) : option point :=
  let '(height, width) := shape in
  match nearest_center (width / 2, height / 2) players with
  | Some (_, center_player) => Some center_player
  | None => None
  end.

(** Lines 125-165 of [find_player_with_ball], after the two detector
    calls. *)
Definition select_player (ball_pos : option point) (players : list box)
           (shape : Z * Z) : option point :=
  match players with
  | [] => None
  | _ =>
      match ball_match ball_pos players with
      | Some p => Some p
      | None => center_fallback players shape
      end
  end.

(** Lines 293-298 of [get_crop_region]. *)
Definition get_crop_region (player_x player_y frame_width frame_height
                            crop_width crop_height : Z) : py (Z * Z) :=
  let offset_y := int_of_float (inject_Z crop_height * (1 # 10)) in
  let crop_x := Z.max 0 (Z.min (player_x - crop_width / 2) (frame_width - crop_width)) in
  let crop_y := Z.max 0 (Z.min (player_y - crop_height / 2 - offset_y)
                               (frame_height - crop_height)) in
  ret (crop_x, crop_y).

(** *** The smoothing window of [track_player_with_ball] *)

Definition history_size : nat := 7.

(** Lines 260-262: [append], then [pop(0)] when the list got longer
    than [history_size]. *)
Definition push_history (position_history : list point) (player_pos : point)
  : list point :=
  let h := position_history ++ [player_pos] in
  if (history_size <? length h)%nat then tl h else h.

(** Lines 265-267. *)
Definition smooth (position_history : list point) : py point :=
  let weights := linspace (1 # 2) 1 (length position_history) in
  ax <- average (map (fun p => inject_Z (fst p)) position_history) weights ;;
  ay <- average (map (fun p => inject_Z (snd p)) position_history) weights ;;
  ret (int_of_float ax, int_of_float ay).

(** Lines 259-267: one push into the smoothing window, giving the
    window after it and the smoothed position. *)
Definition smoother_push (position_history : list point) (player_pos : point)
  : py (list point * point) :=
  let history := push_history position_history player_pos in
  avg <- smooth history ;;
  ret (history, avg).


(** *** The frame loop of [track_player_with_ball] *)

(** The OpenCV collaborator: what the source obtains from [cv2] on a
    frame. *)
Class OpenCV : Type := {
  Frame : Type;
  (** [frame.shape[:2]], that is [(height, width)]. *)
  frame_shape : Frame -> Z * Z;
  (** Lines 39-46: the external contours of the cleaned orange mask. *)
  findContours : Frame -> list contour;
  (** Lines 77-98: the HOG person boxes, scaled back to the frame. *)
  detectMultiScale : Frame -> list box;
  (** A CSRT tracker; [tracker_init frame bbox] is
      [cv2.TrackerCSRT_create()] followed by [tracker.init(frame, bbox)]. *)
  Tracker : Type;
  tracker_init : Frame -> box -> Tracker;
  (** [tracker.update(frame)]: the tracker after the call, and the box
      (each coordinate through [int]) when [success] is true. *)
  tracker_update : Tracker -> Frame -> Tracker * option box
}.

Section Reframing.

Context {cv : OpenCV}.

(** The variables of the loop that survive an iteration. *)
Record state : Type := mkState {
  frame_num : Z;
  tracker : option Tracker;
  tracked_bbox : option box;
  last_position : option point;
  position_history : list point;
  positions : list (Q * Z * Z)
}.

(** Lines 46-64. *)
Definition detect_ball_position (frame : Frame) : py (option point) :=
  match max_by contourArea (findContours frame) with
  | None => ret None
  | Some largest_contour =>
      let area := contourArea largest_contour in
      if flt area 50 || flt 50000 area then ret None
      else if Qeq_bool (m00 largest_contour) 0 then ret None
      else
        cx <- truediv (m10 largest_contour) (m00 largest_contour) ;;
        cy <- truediv (m01 largest_contour) (m00 largest_contour) ;;
        ret (Some (int_of_float cx, int_of_float cy))
  end.

(** Lines 100-107: the aspect filter [h > w * 0.8]. *)
Definition detect_players (frame : Frame) : list box :=
  filter (fun b : box => let '(_, _, w, h) := b in
                         flt (inject_Z w * (8 # 10)) (inject_Z h))
         (detectMultiScale frame).

(** Lines 119-165. *)
Definition find_player_with_ball (frame : Frame) : py (option point) :=
  ball_pos <- detect_ball_position frame ;;
  let players := detect_players frame in
  ret (select_player ball_pos players (frame_shape frame)).

(** Arguments of [track_player_with_ball] and what it reads from the
    capture. *)
Variable fps : Q.
Variable start_time : Q.
Variable duration : Q.

Definition detection_interval : Z := int_of_float (fps * (1 # 2)).

Definition bbox_size : Z := 150.

(** The variables the detection and tracking phases assign. *)
Record tracking : Type := mkTracking {
  player_pos : option point;
  tr_tracker : option Tracker;
  tr_bbox : option box;
  tr_last : option point
}.

(** Lines 213-235. *)
Definition detection_phase (st : state) (frame : Frame) : py tracking :=
  let keep := mkTracking None (tracker st) (tracked_bbox st) (last_position st) in
  r <- mod_ (frame_num st) detection_interval ;;
  if (r =? 0) || (match tracker st with None => true | Some _ => false end) then
    found <- find_player_with_ball frame ;;
    match found with
    | Some (px, py) =>
        let bbox := (Z.max 0 (px - bbox_size / 2), Z.max 0 (py - bbox_size / 2),
                     Z.max 0 bbox_size, Z.max 0 bbox_size) in
        ret (mkTracking (Some (px, py)) (Some (tracker_init frame bbox))
                        (Some bbox) (Some (px, py)))
    | None => ret keep
    end
  else ret keep.

(** Lines 237-248. *)
Definition tracking_phase (t : tracking) (frame : Frame) : tracking :=
  match tr_tracker t with
  | Some trk =>
      let '(trk', updated) := tracker_update trk frame in
      match updated with
      | Some bbox =>
          let p := box_center bbox in
          mkTracking (Some p) (Some trk') (Some bbox) (Some p)
      | None =>
          match tr_last t with
          | Some lp => mkTracking (Some lp) (Some trk') (tr_bbox t) (tr_last t)
          | None => mkTracking (player_pos t) (Some trk') (tr_bbox t) (tr_last t)
          end
      end
  | None => t
  end.

(** Lines 250-257. *)
Definition fallback_phase (t : tracking) (frame : Frame) : point :=
  match player_pos t with
  | Some p => p
  | None =>
      match tr_last t with
      | Some lp => lp
      | None => let '(h, w) := frame_shape frame in (w / 2, h / 2)
      end
  end.

(** Lines 211-257: the raw position of a frame and the tracker
    variables after it. *)
Definition observe (st : state) (frame : Frame) : py (point * tracking) :=
  t <- detection_phase st frame ;;
  let t' := tracking_phase t frame in
  ret (fallback_phase t' frame, t').

(** One iteration of the [while True] loop on a frame that
    [cap.read()] returned; [None] is the [break] on the duration. *)
Definition track_frame (st : state) (frame : Frame) : py (option state) :=
  elapsed <- truediv (inject_Z (frame_num st)) fps ;;
  let current_time := (start_time + elapsed)%Q in
  if flt (start_time + duration)%Q current_time then ret None
  else
    o <- observe st frame ;;
    let '(pos, t) := o in
    r <- smoother_push (position_history st) pos ;;
    let '(history, (avg_x, avg_y)) := r in
    ret (Some (mkState (frame_num st + 1) (tr_tracker t) (tr_bbox t) (tr_last t)
                       history
                       (positions st ++ [(current_time, avg_x, avg_y)]))).

Definition initial_state : state := mkState 0 None None None [] [].

(** The loop over the frames the capture still holds. *)
Fixpoint track_loop (st : state) (frames : list Frame) : py state :=
  match frames with
  | [] => ret st
  | frame :: rest =>
      r <- track_frame st frame ;;
      match r with
      | None => ret st
      | Some st' => track_loop st' rest
      end
  end.

Definition track_player_with_ball (frames : list Frame) : py (list (Q * Z * Z)) :=
  st <- track_loop initial_state frames ;;
  ret (positions st).

End Reframing.

End BallTracker.

(** ** [clipper.py]: the crop geometry of [make_frame] *)

Module Clipper.

(** The attributes of [VideoClipper] the geometry reads. *)
Record VideoClipper : Type := mkClipper {
  shorts_width : Z;
  shorts_height : Z
}.

(** [VideoClipper.__init__]. *)
Definition init : VideoClipper := mkClipper 1080 1920.

(** Lines 193-195 of [_format_with_ball_tracking]: [scale_factor] and
    [scaled_width]. *)
Definition scale_to_height (self : VideoClipper) (original_width original_height : Z)
  : py (Q * Z) :=
  scale_factor <- truediv (inject_Z (shorts_height self)) (inject_Z original_height) ;;
  ret (scale_factor, int_of_float (inject_Z original_width * scale_factor)).

(** Number of items of [a[lo:hi]] on an axis of [n] items, for the
    non-negative bounds the source slices with. *)
Definition slice_len (n lo hi : Z) : Z := Z.max 0 (Z.min hi n - Z.min lo n).

(** What [make_frame] decides for one frame: the crop origin, the shape
    of the slice it takes from the scaled frame, and the padding branch
    with the offsets at which the slice is pasted. *)
Record crop : Type := mkCrop {
  crop_x : Z;
  crop_y : Z;
  cropped_height : Z;
  cropped_width : Z;
  padded : bool;
  y_offset : Z;
  x_offset : Z
}.

(** Lines 214-242 of [make_frame], for the position [(player_x,
    player_y)] picked from [player_positions]. [cv2.resize] refuses an
    empty target size. *)
Definition make_frame (self : VideoClipper) (scale_factor : Q) (scaled_width : Z)
           (player_x player_y : Z) : py crop :=
  if (scaled_width <=? 0) || (shorts_height self <=? 0) then raise cv2_error
  else
    let player_x_scaled := int_of_float (inject_Z player_x * scale_factor) in
    let player_y_scaled := int_of_float (inject_Z player_y * scale_factor) in
    let offset_y := int_of_float (inject_Z (shorts_height self) * (1 # 10)) in
    let cx := Z.max 0 (Z.min (player_x_scaled - shorts_width self / 2)
                             (scaled_width - shorts_width self)) in
    let cy := Z.max 0 (Z.min (player_y_scaled - shorts_height self / 2 - offset_y)
                             (shorts_height self - shorts_height self)) in
    let h := slice_len (shorts_height self) cy (cy + shorts_height self) in
    let w := slice_len scaled_width cx (cx + shorts_width self) in
    if (h <? shorts_height self) || (w <? shorts_width self) then
      ret (mkCrop cx cy h w true
                  ((shorts_height self - h) / 2) ((shorts_width self - w) / 2))
    else ret (mkCrop cx cy h w false 0 0).

(** One step of [min] in [make_frame]: a later position replaces the
    best one only when its timestamp is strictly nearer to
    [current_time]. *)
Definition keep_nearer (current_time : Q) (best c : Q * Z * Z) : Q * Z * Z :=
  if flt (Qabs (fst (fst c) - current_time)) (Qabs (fst (fst best) - current_time))
  then c else best.

(** Line 208: [min(player_positions, key=lambda x: abs(x[0] - current_time))],
    the first position whose timestamp is nearest to [current_time];
    [None] for the empty list, which line 207 excludes. *)
Definition closest_pos (player_positions : list (Q * Z * Z)) (current_time : Q)
  : option (Q * Z * Z) :=
  match player_positions with
  | [] => None
  | x :: rest => Some (fold_left (keep_nearer current_time) rest x)
  end.

(** Lines 202-212 of [make_frame]: the player position used for the
    frame numbered [frame_counter] of a clip played at [fps]. *)
Definition frame_position (player_positions : list (Q * Z * Z))
           (original_width original_height : Z) (fps : Q) (frame_counter : Z)
  : py (Z * Z) :=
  current_time <- truediv (inject_Z frame_counter) fps ;;
  match closest_pos player_positions current_time with
  | Some (_, player_x, player_y) => ret (player_x, player_y)
  | None => ret (original_width / 2, original_height / 2)
  end.


(** A highlight dictionary, by the keys [create_all_clips] reads; a
    missing key is [None]. *)
Record highlight : Type := mkHighlight {
  hl_timestamp : option Q;
  hl_description : option String.string;
  hl_score : option Q
}.

(** The dictionary [create_all_clips] appends for a clip. *)
Record clip_entry : Type := mkClip {
  clip_id : nat;
  clip_path : String.string;
  clip_timestamp : Q;
  clip_description : String.string;
  clip_score : Q
}.

(** [d.get(key, default)]. *)
Definition get {A : Type} (field : option A) (default : A) : A :=
  match field with
  | Some v => v
  | None => default
  end.

(** A string is true in a condition when it is not empty. *)
Definition truthy (s : String.string) : bool :=
  match s with
  | String.EmptyString => false
  | String.String _ _ => true
  end.

(** The loop of [create_all_clips] from index [idx] on. [create_clip
    timestamp idx] is the path [self.create_clip(video_path, timestamp,
    idx)] returns, empty when the clip could not be made. *)
Fixpoint create_clips_from (create_clip : Q -> nat -> String.string)
         (idx : nat) (highlights : list highlight) : list clip_entry :=
  match highlights with
  | [] => []
  | hl :: rest =>
      let timestamp := get (hl_timestamp hl) 0%Q in
      let path := create_clip timestamp idx in
      let clips := create_clips_from create_clip (S idx) rest in
      if truthy path then
        mkClip idx path timestamp
               (get (hl_description hl) String.EmptyString)
               (get (hl_score hl) 0%Q) :: clips
      else clips
  end.

(** Lines 288-305. *)
Definition create_all_clips (create_clip : Q -> nat -> String.string)
           (highlights : list highlight) : list clip_entry :=
  create_clips_from create_clip 0 highlights.

End Clipper.

(** ** [fusion.py]: class [HighlightFusion] *)

Module Fusion.

Import Clipper.

(** The default descriptions of [fuse]. *)
Module Defaults.
Import String.
Definition exciting_play : string := "Exciting play"%string.
Definition visual_highlight : string := "Visual highlight"%string.
End Defaults.

(** The value of the key [source]: the strings [text], [visual] and
    [fused]. *)
Inductive source : Type :=
| from_text
| from_visual
| from_both.

(** The dictionary [fuse] appends for a highlight. *)
Record entry : Type := mkEntry {
  timestamp : Q;
  description : String.string;
  score : Q;
  source_of : source;
  text_score : Q;
  visual_score : Q
}.

Record HighlightFusion : Type := mkFusion {
  overlap_threshold : Q
}.

(** [HighlightFusion.__init__] with its default argument. *)
Definition init : HighlightFusion := mkFusion 5.

(** [enumerate(items)]. *)
Definition enumerate {A : Type} (items : list A) : list (nat * A) :=
  combine (seq 0 (length items)) items.

(** [j in used] on a set of indices. *)
Definition mem (j : nat) (used : list nat) : bool := existsb (Nat.eqb j) used.

(** Lines 45-53: one visual highlight against [text_hl], updating
    [best_match_idx] and [best_match_score]. *)
Definition match_step (self : HighlightFusion) (text_hl : highlight)
           (best : option nat * Q) (jv : nat * highlight) : option nat * Q :=
  let text_time := get (hl_timestamp text_hl) 0%Q in
  let visual_time := get (hl_timestamp (snd jv)) 0%Q in
  if Qle_bool (Qabs (text_time - visual_time)) (overlap_threshold self) then
    let combined_score :=
      (get (hl_score text_hl) 5 + get (hl_score (snd jv)) (1 # 2) * 2)%Q in
    if flt (snd best) combined_score then (Some (fst jv), combined_score) else best
  else best.

(** Lines 41-53: the inner loop over the visual highlights. *)
Definition best_match (self : HighlightFusion) (text_hl : highlight)
           (visual_highlights : list highlight) : option nat * Q :=
  fold_left (match_step self text_hl) (enumerate visual_highlights) (None, 0%Q).

(** The variables of the first loop: [fused], [used_text_indices] and
    [used_visual_indices]. *)
Record merging : Type := mkMerging {
  fused : list entry;
  used_text_indices : list nat;
  used_visual_indices : list nat
}.

(** Lines 38-68: one text highlight of the first loop. The index that
    [best_match] gives is an index of [visual_highlights]. *)
Definition merge_step (self : HighlightFusion) (visual_highlights : list highlight)
           (m : merging) (it : nat * highlight) : merging :=
  let text_hl := snd it in
  match best_match self text_hl visual_highlights with
  | (Some best_match_idx, best_match_score) =>
      if mem best_match_idx (used_visual_indices m) then m
      else
        match nth_error visual_highlights best_match_idx with
        | Some visual_hl =>
            mkMerging
              (fused m ++
               [mkEntry (get (hl_timestamp text_hl) 0%Q)
                        (get (hl_description text_hl) Defaults.exciting_play)
                        best_match_score from_both
                        (get (hl_score text_hl) 5%Q)
                        (get (hl_score visual_hl) (1 # 2))])
              (fst it :: used_text_indices m)
              (best_match_idx :: used_visual_indices m)
        | None => m
        end
  | (None, _) => m
  end.

(** Lines 70-80: an unmatched text highlight is appended. *)
Definition text_step (used_text : list nat) (acc : list entry) (it : nat * highlight)
  : list entry :=
  if mem (fst it) used_text then acc
  else acc ++ [mkEntry (get (hl_timestamp (snd it)) 0%Q)
                       (get (hl_description (snd it)) Defaults.exciting_play)
                       (get (hl_score (snd it)) 5%Q) from_text
                       (get (hl_score (snd it)) 5%Q) 0%Q].

(** Lines 82-92: an unused visual highlight is appended while fewer
    than 10 entries are held. *)
Definition visual_step (used_visual : list nat) (acc : list entry) (it : nat * highlight)
  : list entry :=
  if negb (mem (fst it) used_visual) && (length acc <? 10)%nat then
    acc ++ [mkEntry (get (hl_timestamp (snd it)) 0%Q)
                    (get (hl_description (snd it)) Defaults.visual_highlight)
                    (get (hl_score (snd it)) (1 # 2) * 2)%Q from_visual
                    0%Q (get (hl_score (snd it)) (1 # 2))]
  else acc.

(** Lines 33-92: the list [fused] before it is sorted. *)
Definition candidates (self : HighlightFusion)
           (text_highlights visual_highlights : list highlight) : list entry :=
  let m := fold_left (merge_step self visual_highlights) (enumerate text_highlights)
                     (mkMerging [] [] []) in
  let with_text := fold_left (text_step (used_text_indices m))
                             (enumerate text_highlights) (fused m) in
  fold_left (visual_step (used_visual_indices m)) (enumerate visual_highlights)
            with_text.

(** [list.sort(key=score, reverse=True)] is stable: an entry goes
    behind the entries that score at least as much and came earlier. *)
Fixpoint insert_sorted (e : entry) (sorted : list entry) : list entry :=
  match sorted with
  | [] => [e]
  | x :: rest => if flt (score x) (score e) then e :: sorted
                 else x :: insert_sorted e rest
  end.

Definition sort_by_score (entries : list entry) : list entry :=
  fold_left (fun sorted e => insert_sorted e sorted) entries [].

(** Lines 33-96. *)
Definition fuse (self : HighlightFusion)
           (text_highlights visual_highlights : list highlight) : list entry :=
  firstn 5 (sort_by_score (candidates self text_highlights visual_highlights)).

(** A fused highlight as [create_all_clips] reads it: the three keys it
    looks up are present. *)
Definition as_highlight (e : entry) : highlight :=
  mkHighlight (Some (timestamp e)) (Some (description e)) (Some (score e)).

End Fusion.

(** * Vocabulary of the properties *)

Import BallTracker.
Import Clipper.

(** ** Ball localization *)

(** The centroid [(int(m10 / m00), int(m01 / m00))] of a contour. *)
Definition centroid (c : contour) : point :=
  (int_of_float (m10 c / m00 c), int_of_float (m01 c / m00 c)).

(** A contour whose area is inside the band [[50, 50000]]. *)
Definition in_band (c : contour) : Prop :=
  (50 <= contourArea c)%Q /\ (contourArea c <= 50000)%Q.

Definition in_bandb (c : contour) : bool :=
  Qle_bool 50 (contourArea c) && Qle_bool (contourArea c) 50000.

(** The localization the spec words: filter by area first, then take
    the largest contour that is left. *)
Definition locate_ball_filter_first (contours : list contour) : option point :=
  match max_by contourArea (filter in_bandb contours) with
  | Some c => Some (centroid c)
  | None => None
  end.

(** ** Subject selection *)

(** [best] is the first box of [players] whose center is nearest to
    [target]. *)
Definition first_nearest (target : point) (players : list box) (best : box) : Prop :=
  exists before after,
    players = before ++ best :: after /\
    (forall b, In b before ->
       dist2 target (box_center best) < dist2 target (box_center b)) /\
    (forall b, In b after ->
       dist2 target (box_center best) <= dist2 target (box_center b)).

(** The Euclidean distance the source computes with [np.sqrt]. *)
Definition euclid (a b : point) : R := sqrt (IZR (dist2 a b)).

(** ** Tracker lifecycle *)

(** The position a frame falls back to when nothing else gives one. *)
Definition fallback_position {cv : OpenCV} (st : state) (frame : Frame) : point :=
  match last_position st with
  | Some lp => lp
  | None => let '(h, w) := frame_shape frame in (w / 2, h / 2)
  end.

(** ** Smoothing *)










(** The invariant of the loop on the tracker variables: while a
    tracker exists, a last position and a tracked box exist. *)
Definition tracked_has_position {cv : OpenCV} (st : state) : Prop :=
  tracker st <> None -> last_position st <> None /\ tracked_bbox st <> None.

(** ** Rendering *)

(** Distance in time between a tracked position and [current_time]. *)
Definition time_gap (current_time : Q) (c : Q * Z * Z) : Q :=
  Qabs (fst (fst c) - current_time).

(** [best] is the first position of [positions] whose timestamp is
    nearest to [current_time]. *)
Definition first_closest (current_time : Q) (positions : list (Q * Z * Z))
           (best : Q * Z * Z) : Prop :=
  exists before after,
    positions = before ++ best :: after /\
    (forall c, In c before -> (time_gap current_time best < time_gap current_time c)%Q) /\
    (forall c, In c after -> (time_gap current_time best <= time_gap current_time c)%Q).

(** The dictionary [create_all_clips] builds for the highlight [hl] at
    index [idx]. *)
Definition clip_of (create_clip : Q -> nat -> String.string) (idx : nat)
           (hl : highlight) : clip_entry :=
  mkClip idx (create_clip (get (hl_timestamp hl) 0%Q) idx)
         (get (hl_timestamp hl) 0%Q)
         (get (hl_description hl) String.EmptyString)
         (get (hl_score hl) 0%Q).

(** Three highlights, the second without timestamp and score, and a
    [create_clip] that fails on the second. *)
Module Takes.

Import String.

Definition dunk : highlight := mkHighlight (Some 12%Q) (Some "dunk"%string) (Some 9%Q).
Definition untimed : highlight := mkHighlight None (Some "block"%string) None.
Definition buzzer : highlight := mkHighlight (Some (95 # 2)) None (Some 8%Q).

Definition highlights : list highlight := [dunk; untimed; buzzer].

Definition create_clip (timestamp : Q) (idx : nat) : string :=
  match idx with
  | 0%nat => "output/clips/clip_0_shorts.mp4"%string
  | 1%nat => EmptyString
  | _ => "output/clips/clip_2.mp4"%string
  end.

End Takes.

(** ** A scripted collaborator *)

Module Scene.

(** A frame given by what OpenCV reports on it: its shape, the orange
    contours, the person boxes, and the box a CSRT tracker reports
    when it is updated on this frame ([None] when it loses the
    target). *)
Record scene : Type := mkScene {
  shape : Z * Z;
  contours : list contour;
  boxes : list box;
  csrt_box : option box
}.

(** A tracker that holds the last box it was given or reported. *)
Definition csrt_update (held : box) (f : scene) : box * option box :=
  match csrt_box f with
  | Some b => (b, Some b)
  | None => (held, None)
  end.

#[export] Instance scripted : OpenCV := {|
  Frame := scene;
  frame_shape := shape;
  findContours := contours;
  detectMultiScale := boxes;
  Tracker := box;
  tracker_init := fun _ bbox => bbox;
  tracker_update := csrt_update
|}.

(** A contour larger than the band allows, beside one inside it. *)
Definition too_large : contour := mkContour 60000 60000 30000000 30000000.
Definition ball_sized : contour := mkContour 100 100 10000 20000.
Definition two_contours : @Frame scripted :=
  mkScene (720, 1280) [too_large; ball_sized] [] None.
Definition one_ball : @Frame scripted := mkScene (720, 1280) [ball_sized] [] None.

(** A contour inside the band whose [m00] is zero. *)
Definition flat : contour := mkContour 100 0 10000 20000.
Definition flat_contour : @Frame scripted := mkScene (720, 1280) [flat] [] None.

(** A frame on which detection finds nothing while the tracker
    follows its target to the box (300, 300, 150, 150). *)
Definition nothing_detected : @Frame scripted :=
  mkScene (720, 1280) [] [] (Some (300, 300, 150, 150)).

(** The same frame with the tracker losing its target. *)
Definition nothing_at_all : @Frame scripted := mkScene (720, 1280) [] [] None.

(** The loop at frame 30 of a 30 fps clip, tracking since a detection
    at (100, 100). *)
Definition tracking_state : @state scripted :=
  mkState 30 (Some (25, 25, 150, 150)) (Some (25, 25, 150, 150))
          (Some (100, 100)) [(100, 100)] [].

End Scene.

(** More scripted frames: a player box whose center is (650, 360)
    with the ball at (640, 360), the tracker then reporting the box
    (610, 260, 100, 220); and three frames of an empty court. *)
Module Footage.

Definition ball : contour := mkContour 100 100 64000 36000.

Definition player_with_ball : @Frame Scene.scripted :=
  Scene.mkScene (720, 1280) [ball] [(600, 250, 100, 220)] (Some (610, 260, 100, 220)).


(** A frame on which the detector reports a box wider than tall beside
    an upright one. *)
Definition wide_and_tall : @Frame Scene.scripted :=
  Scene.mkScene (720, 1280) [] [(0, 0, 100, 50); (600, 250, 100, 220)] None.

End Footage.

(** ** Fusion *)

(** [a] scores at least as much as [b]. *)
Definition scores_at_least (a b : Fusion.entry) : Prop :=
  (Fusion.score b <= Fusion.score a)%Q.

(** The entry [fuse] appends for an unmatched text highlight. *)
Definition text_entry (hl : Clipper.highlight) : Fusion.entry :=
  Fusion.mkEntry (Clipper.get (Clipper.hl_timestamp hl) 0%Q)
                 (Clipper.get (Clipper.hl_description hl) Fusion.Defaults.exciting_play)
                 (Clipper.get (Clipper.hl_score hl) 5%Q) Fusion.from_text
                 (Clipper.get (Clipper.hl_score hl) 5%Q) 0%Q.

(** The entry [fuse] appends for an unused visual highlight. *)
Definition visual_entry (hl : Clipper.highlight) : Fusion.entry :=
  Fusion.mkEntry (Clipper.get (Clipper.hl_timestamp hl) 0%Q)
                 (Clipper.get (Clipper.hl_description hl) Fusion.Defaults.visual_highlight)
                 (Clipper.get (Clipper.hl_score hl) (1 # 2) * 2)%Q Fusion.from_visual
                 0%Q (Clipper.get (Clipper.hl_score hl) (1 # 2)).

(** How the score of an entry is made up, by its source. *)
Definition score_by_source (e : Fusion.entry) : Prop :=
  match Fusion.source_of e with
  | Fusion.from_both =>
      Fusion.score e = (Fusion.text_score e + Fusion.visual_score e * 2)%Q /\
      (0 < Fusion.score e)%Q
  | Fusion.from_text =>
      Fusion.score e = Fusion.text_score e /\ Fusion.visual_score e = 0%Q
  | Fusion.from_visual =>
      Fusion.score e = (Fusion.visual_score e * 2)%Q /\ Fusion.text_score e = 0%Q
  end.

(** [e] is not an entry made from a visual highlight alone. *)
Definition has_text (e : Fusion.entry) : bool :=
  match Fusion.source_of e with
  | Fusion.from_visual => false
  | _ => true
  end.

(** [e] is an entry that uses a visual highlight. *)
Definition has_visual (e : Fusion.entry) : bool :=
  match Fusion.source_of e with
  | Fusion.from_text => false
  | _ => true
  end.

(** What the first loop of [fuse] keeps after [k] text highlights:
    the fused entries are scored by the sum rule, there is one per used
    text index and one per used visual index, no index is used twice,
    and the entry of a used text index carries the data of its
    highlight. *)
Definition merge_invariant (text_highlights visual_highlights : list Clipper.highlight)
           (k : nat) (m : Fusion.merging) : Prop :=
  Forall (fun e => Fusion.source_of e = Fusion.from_both /\ score_by_source e)
         (Fusion.fused m) /\
  length (Fusion.fused m) = length (Fusion.used_text_indices m) /\
  length (Fusion.fused m) = length (Fusion.used_visual_indices m) /\
  NoDup (Fusion.used_visual_indices m) /\
  (forall j, In j (Fusion.used_visual_indices m) -> (j < length visual_highlights)%nat) /\
  NoDup (Fusion.used_text_indices m) /\
  (forall i, In i (Fusion.used_text_indices m) -> (i < k)%nat) /\
  (forall i, In i (Fusion.used_text_indices m) ->
     exists hl e,
       nth_error text_highlights i = Some hl /\ In e (Fusion.fused m) /\
       Fusion.timestamp e = Fusion.timestamp (text_entry hl) /\
       Fusion.description e = Fusion.description (text_entry hl) /\
       Fusion.text_score e = Fusion.text_score (text_entry hl)).

(** Two visual highlights for the text highlights of [Takes]: one
    two seconds from the dunk, one far from every text highlight. *)
Module Reel.

Import String.

Definition poster : Clipper.highlight :=
  Clipper.mkHighlight (Some 10%Q) (Some "poster dunk"%string) (Some (3 # 10)).
Definition fast_break : Clipper.highlight :=
  Clipper.mkHighlight (Some 100%Q) (Some "fast break"%string) (Some (4 # 10)).

Definition visual_highlights : list Clipper.highlight := [poster; fast_break].

End Reel.

(** * Properties *)

(** ** Crop geometry *)




(** The scenario of the spec: a 1280x720 source scaled to height 1920. *)
Example make_frame_scenario :
  scale_to_height init 1280 720 = inr ((1920 # 720)%Q, 3413) /\
  exists c, make_frame init (1920 # 720) 3413 650 360 = inr c /\
            (crop_x c, crop_y c) = (1193, 0).
Proof. split; [reflexivity|]. eexists. split; reflexivity. Qed.

(** [get_crop_region] returns a centered-and-clamped origin and nothing
    else: with a frame narrower than the crop the origin is 0 and the
    crop overhangs the frame, and no value in the result says so. *)
Example get_crop_region_narrow_frame :
  get_crop_region 50 50 100 100 300 100 = inr (0, 0).
Proof. reflexivity. Qed.



(** ** Ball localization *)

Lemma flt_iff (a b : Q) : flt a b = true <-> (a < b)%Q.
Proof.
  unfold flt. rewrite negb_true_iff. split.
  - intros H. apply Qnot_le_lt. intros Hle.
    apply Qle_bool_iff in Hle. congruence.
  - intros H. destruct (Qle_bool b a) eqn:E; [|reflexivity].
    apply Qle_bool_iff in E. exfalso. exact (Qlt_not_le _ _ H E).
Qed.

Lemma flt_false_iff (a b : Q) : flt a b = false <-> (b <= a)%Q.
Proof.
  unfold flt. rewrite negb_false_iff. apply Qle_bool_iff.
Qed.

Section MaxBy.

Context {A : Type} (key : A -> Q).

Lemma fold_pick_spec (rest : list A) (x : A) :
  let r := fold_left (keep_larger key) rest x in
  In r (x :: rest) /\ (key x <= key r)%Q /\
  forall c, In c rest -> (key c <= key r)%Q.
Proof.
  revert x. induction rest as [|c rest IH]; intros x; cbn.
  - split; [now left|]. split; [apply Qle_refl|]. intros c [].
  - destruct (IH (keep_larger key x c)) as (Hin & Hx & Hall).
    remember (fold_left (keep_larger key) rest (keep_larger key x c)) as r eqn:Hr. clear Hr.
    assert (Hpick : (key x <= key (keep_larger key x c))%Q /\ (key c <= key (keep_larger key x c))%Q /\
                    (keep_larger key x c = x \/ keep_larger key x c = c)).
    { unfold keep_larger. destruct (flt (key x) (key c)) eqn:E.
      - apply flt_iff in E. split; [apply Qlt_le_weak; exact E|].
        split; [apply Qle_refl|now right].
      - apply flt_false_iff in E. split; [apply Qle_refl|].
        split; [exact E|now left]. }
    destruct Hpick as (Hpx & Hpc & Hpe).
    split; [|split].
    + destruct Hin as [Hin|Hin].
      * destruct Hpe as [Hpe|Hpe]; rewrite Hpe in Hin; auto.
      * auto.
    + eapply Qle_trans; eassumption.
    + intros c' [<-|Hc']; [eapply Qle_trans; eassumption|auto].
Qed.

Lemma max_by_spec (items : list A) (best : A) :
  max_by key items = Some best ->
  In best items /\ forall c, In c items -> (key c <= key best)%Q.
Proof.
  destruct items as [|x rest]; [discriminate|].
  unfold max_by. intros [= <-].
  destruct (fold_pick_spec rest x) as (Hin & Hx & Hall).
  split; [exact Hin|]. intros c [<-|Hc]; auto.
Qed.

Lemma max_by_none (items : list A) : max_by key items = None <-> items = [].
Proof. destruct items; cbn; split; congruence. Qed.

End MaxBy.

Lemma in_bandb_iff c : in_bandb c = true <-> in_band c.
Proof.
  unfold in_bandb, in_band. rewrite andb_true_iff, !Qle_bool_iff. tauto.
Qed.

Section BallFacts.

Context {cv : OpenCV}.

Lemma detect_ball_position_cases (frame : Frame) (c : contour) :
  max_by contourArea (findContours frame) = Some c ->
  detect_ball_position frame
  = inr (if flt (contourArea c) 50 || flt 50000 (contourArea c) then None
         else if Qeq_bool (m00 c) 0 then None
         else Some (centroid c)).
Proof.
  intros Hmax. unfold detect_ball_position. rewrite Hmax.
  destruct (flt (contourArea c) 50 || flt 50000 (contourArea c)); [reflexivity|].
  unfold truediv.
  destruct (Qeq_bool (m00 c) 0); reflexivity.
Qed.

(** C10. The centroid division is guarded: [detect_ball_position]
    never raises, and when the [m00] of the selected contour is zero it
    returns no position, so neither division by [m00] runs on a zero
    divisor. *)
Theorem detect_ball_position_division_guarded (frame : Frame) :
  (exists r, detect_ball_position frame = inr r) /\
  (forall c, max_by contourArea (findContours frame) = Some c ->
             (m00 c == 0)%Q ->
             detect_ball_position frame = inr None /\
             truediv (m10 c) (m00 c) = inl ZeroDivisionError /\
             truediv (m01 c) (m00 c) = inl ZeroDivisionError).
Proof.
  split.
  - destruct (max_by contourArea (findContours frame)) as [c|] eqn:Hmax.
    + rewrite (detect_ball_position_cases frame c Hmax). eexists. reflexivity.
    + unfold detect_ball_position. rewrite Hmax. eexists. reflexivity.
  - intros c Hmax Hz. rewrite (detect_ball_position_cases frame c Hmax).
    apply Qeq_bool_iff in Hz. unfold truediv. rewrite Hz.
    split; [|split; reflexivity].
    destruct (flt (contourArea c) 50 || flt 50000 (contourArea c)); reflexivity.
Qed.

(** C2 (amended). [detect_ball_position] takes the largest of all
    contours first and tests the band on that one alone: it returns the
    centroid of the largest contour when its area is in [[50, 50000]]
    (and its [m00] is not zero), and nothing when there is no contour or
    the largest one is out of band. A position that is returned is the
    centroid of an in-band contour no other contour exceeds in area. *)
Theorem detect_ball_position_largest_then_band (frame : Frame) :
  (findContours frame = [] ->
   detect_ball_position frame = inr None) /\
  (forall c, max_by contourArea (findContours frame) = Some c ->
     In c (findContours frame) /\
     (forall c', In c' (findContours frame) -> (contourArea c' <= contourArea c)%Q) /\
     (in_band c -> ~ (m00 c == 0)%Q ->
      detect_ball_position frame = inr (Some (centroid c))) /\
     (~ in_band c ->
      detect_ball_position frame = inr None)) /\
  (forall p, detect_ball_position frame = inr (Some p) ->
     exists c, In c (findContours frame) /\ in_band c /\ p = centroid c /\
               forall c', In c' (findContours frame) ->
                          (contourArea c' <= contourArea c)%Q).
Proof.
  assert (Hband : forall c,
            flt (contourArea c) 50 || flt 50000 (contourArea c) = false <-> in_band c).
  { intros c. unfold in_band. rewrite orb_false_iff, !flt_false_iff. tauto. }
  split; [|split].
  - intros Hnil. unfold detect_ball_position. rewrite Hnil. reflexivity.
  - intros c Hmax. destruct (max_by_spec _ _ _ Hmax) as [Hin Hall].
    split; [exact Hin|]. split; [exact Hall|].
    rewrite (detect_ball_position_cases frame c Hmax). split.
    + intros Hb Hz. apply Hband in Hb. rewrite Hb.
      destruct (Qeq_bool (m00 c) 0) eqn:E; [|reflexivity].
      apply Qeq_bool_iff in E. contradiction.
    + intros Hb.
      destruct (flt (contourArea c) 50 || flt 50000 (contourArea c)) eqn:E;
        [reflexivity|]. apply Hband in E. contradiction.
  - intros p Hp.
    destruct (max_by contourArea (findContours frame)) as [c|] eqn:Hmax.
    + rewrite (detect_ball_position_cases frame c Hmax) in Hp.
      destruct (max_by_spec _ _ _ Hmax) as [Hin Hall].
      destruct (flt (contourArea c) 50 || flt 50000 (contourArea c)) eqn:E;
        [discriminate|].
      destruct (Qeq_bool (m00 c) 0); [discriminate|].
      injection Hp as <-. exists c. apply Hband in E. auto.
    + unfold detect_ball_position in Hp. rewrite Hmax in Hp. discriminate.
Qed.

End BallFacts.

(** ** Subject selection *)

Lemma first_nearest_min target players best :
  first_nearest target players best ->
  In best players /\
  forall b, In b players ->
    dist2 target (box_center best) <= dist2 target (box_center b).
Proof.
  intros (before & after & -> & Hb & Ha). split.
  - apply in_or_app. right. now left.
  - intros b Hin. apply in_app_or in Hin as [Hin|[<-|Hin]].
    + apply Z.lt_le_incl. auto.
    + lia.
    + auto.
Qed.

Lemma nearest_center_spec target players :
  match nearest_center target players with
  | None => players = []
  | Some (d, c) =>
      exists best, first_nearest target players best /\
                   c = box_center best /\ d = dist2 target c
  end.
Proof.
  unfold nearest_center.
  induction players as [|x l IH] using rev_ind; [reflexivity|].
  rewrite fold_left_app. cbn [fold_left].
  destruct (fold_left (nearest_step target) l None) as [[d c]|].
  - destruct IH as (best & Hfirst & -> & ->).
    unfold nearest_step.
    destruct (Z.ltb_spec (dist2 target (box_center x))
                         (dist2 target (box_center best))) as [Hlt|Hge].
    + exists x. split; [|split; reflexivity].
      exists l, []. split; [reflexivity|]. split; [|intros b []].
      intros b Hin. destruct (first_nearest_min _ _ _ Hfirst) as [_ Hmin].
      specialize (Hmin b Hin). lia.
    + exists best. split; [|split; reflexivity].
      destruct Hfirst as (before & after & -> & Hb & Ha).
      exists before, (after ++ [x]). split; [|split].
      * rewrite <- app_assoc. reflexivity.
      * exact Hb.
      * intros b Hin. apply in_app_or in Hin as [Hin|[<-|[]]]; auto.
  - subst l. cbn. exists x. split; [|split; reflexivity].
    exists [], []. split; [reflexivity|]. split; intros b [].
Qed.

Lemma dist2_nonneg a b : 0 <= dist2 a b.
Proof. unfold dist2. nia. Qed.

Lemma euclid_lt_iff a b (r : Z) :
  0 <= r -> ((euclid a b < IZR r)%R <-> dist2 a b < r ^ 2).
Proof.
  intros Hr. unfold euclid.
  assert (Hd : (0 <= IZR (dist2 a b))%R) by (apply IZR_le, dist2_nonneg).
  assert (Hsq : sqrt (IZR (r ^ 2)) = IZR r).
  { replace (r ^ 2) with (r * r) by ring. rewrite mult_IZR.
    apply sqrt_square. now apply IZR_le. }
  rewrite <- Hsq. split.
  - intros H. apply lt_IZR. apply sqrt_lt_0_alt. exact H.
  - intros H. apply sqrt_lt_1_alt. split; [exact Hd|]. now apply IZR_lt.
Qed.

(** C4. A point the selector returns through the ball-matching path is
    the center of the first person box nearest to the ball, and its
    Euclidean distance to the ball is below the radius 200; it is then
    the result of the selection whatever the frame shape. In the
    scenario of the spec the selector returns (650, 360). *)
Theorem ball_match_within_radius :
  (forall ball players p,
     ball_match (Some ball) players = Some p ->
     (euclid ball p < 200)%R /\
     (exists best, first_nearest ball players best /\ p = box_center best) /\
     forall shape, select_player (Some ball) players shape = Some p) /\
  box_center (600, 250, 100, 220) = (650, 360) /\
  select_player (Some (640, 360)) [(600, 250, 100, 220)] (720, 1280)
  = Some (650, 360).
Proof.
  split; [|split; reflexivity].
  intros ball players p H. unfold ball_match in H.
  pose proof (nearest_center_spec ball players) as Hn.
  destruct (nearest_center ball players) as [[d c]|] eqn:E; [|discriminate].
  destruct Hn as (best & Hfirst & -> & ->).
  destruct (Z.ltb_spec (dist2 ball (box_center best)) (ball_match_radius ^ 2))
    as [Hlt|]; [|discriminate].
  injection H as <-. split; [|split].
  - apply (euclid_lt_iff ball (box_center best) 200); [lia|exact Hlt].
  - exists best. split; [exact Hfirst|reflexivity].
  - intros shape. unfold select_player.
    destruct players as [|b l].
    + destruct Hfirst as (before & after & Hnil & _).
      destruct before; discriminate Hnil.
    + unfold ball_match. rewrite E.
      destruct (Z.ltb_spec (dist2 ball (box_center best)) (ball_match_radius ^ 2));
        [reflexivity|lia].
Qed.

Lemma ball_match_within_radius_witness :
  (euclid (640, 360)%Z (650, 360)%Z < 200)%R.
Proof.
  destruct ball_match_within_radius as [H _].
  destruct (H (640, 360) [(600, 250, 100, 220)] (650, 360)) as [Hd _].
  - reflexivity.
  - exact Hd.
Defined.

(** The ball-matching path is left without a result when there is no
    ball, and when the nearest person is 200 pixels or more away. *)
Lemma ball_match_rejected ball players d c :
  nearest_center ball players = Some (d, c) ->
  ball_match_radius ^ 2 <= d ->
  ball_match (Some ball) players = None.
Proof.
  intros E Hd. unfold ball_match. rewrite E.
  destruct (Z.ltb_spec d (ball_match_radius ^ 2)); [lia|reflexivity].
Qed.

(** C5. When the ball-matching path gives no result (no ball, or the
    nearest person rejected) and there is a person box, the selector
    returns the center of the box nearest to the center of the frame,
    the first such box in the order of the list. In the scenario of the
    spec it returns (700, 360); of two boxes at the same distance the
    first one wins. *)
Theorem center_fallback_first_nearest :
  (forall ball_pos b players height width,
     ball_match ball_pos (b :: players) = None ->
     exists best,
       first_nearest (width / 2, height / 2) (b :: players) best /\
       select_player ball_pos (b :: players) (height, width)
       = Some (box_center best)) /\
  (forall players, ball_match None players = None) /\
  (box_center (150, 250, 100, 220) = (200, 360) /\
   box_center (650, 250, 100, 220) = (700, 360) /\
   select_player None [(150, 250, 100, 220); (650, 250, 100, 220)] (720, 1280)
   = Some (700, 360)) /\
  (box_center (490, 250, 100, 220) = (540, 360) /\
   box_center (690, 250, 100, 220) = (740, 360) /\
   select_player None [(490, 250, 100, 220); (690, 250, 100, 220)] (720, 1280)
   = Some (540, 360) /\
   select_player None [(690, 250, 100, 220); (490, 250, 100, 220)] (720, 1280)
   = Some (740, 360)).
Proof.
  split; [|split; [reflexivity|split; repeat split; reflexivity]].
  intros ball_pos b players height width Hnone.
  unfold select_player. rewrite Hnone. unfold center_fallback.
  pose proof (nearest_center_spec (width / 2, height / 2) (b :: players)) as Hn.
  destruct (nearest_center (width / 2, height / 2) (b :: players)) as [[d c]|].
  - destruct Hn as (best & Hfirst & -> & _). exists best. split; [exact Hfirst|reflexivity].
  - discriminate Hn.
Qed.

Lemma center_fallback_first_nearest_witness :
  exists best,
    first_nearest (640, 360) [(150, 250, 100, 220); (650, 250, 100, 220)] best /\
    select_player (Some (0, 0)) [(150, 250, 100, 220); (650, 250, 100, 220)] (720, 1280)
    = Some (box_center best).
Proof.
  destruct center_fallback_first_nearest as [H _].
  apply (H (Some (0, 0)) (150, 250, 100, 220) [(650, 250, 100, 220)] 720 1280).
  reflexivity.
Defined.

(** ** The smoothing window *)

Lemma push_history_length h p :
  (length h <= history_size)%nat ->
  (length (push_history h p) <= history_size)%nat.
Proof.
  intros H. unfold push_history.
  destruct (Nat.ltb_spec history_size (length (h ++ [p]))) as [Hlt|Hge].
  - rewrite length_app in Hlt. cbn in Hlt.
    destruct h as [|q h]; cbn in *; [lia|].
    rewrite length_app. cbn. lia.
  - exact Hge.
Qed.

Lemma fold_push_history_length raw h :
  (length h <= history_size)%nat ->
  (length (fold_left push_history raw h) <= history_size)%nat.
Proof.
  revert h. induction raw as [|p raw IH]; intros h H; cbn; [exact H|].
  apply IH. now apply push_history_length.
Qed.

(** C7. Whatever the sequence of raw positions pushed into an empty
    window, the window never holds more than [history_size] = 7
    positions; a push into a full window drops its oldest position, a
    push into a shorter one drops nothing. *)
Theorem history_never_exceeds_window :
  history_size = 7%nat /\
  (forall raw, (length (fold_left push_history raw []) <= history_size)%nat) /\
  (forall h p, length h = history_size -> push_history h p = tl h ++ [p]) /\
  (forall h p, (length h < history_size)%nat -> push_history h p = h ++ [p]).
Proof.
  split; [reflexivity|]. split; [|split].
  - intros raw. apply fold_push_history_length. apply Nat.le_0_l.
  - intros h p Hlen. unfold push_history.
    rewrite length_app, Hlen. cbn.
    destruct h; [discriminate Hlen|reflexivity].
  - intros h p Hlen. unfold push_history.
    rewrite length_app. cbn [length].
    destruct (Nat.ltb_spec history_size (length h + 1)); [lia|reflexivity].
Qed.

Lemma history_never_exceeds_window_witness :
  push_history [(1, 1); (2, 2); (3, 3); (4, 4); (5, 5); (6, 6); (7, 7)] (8, 8)
  = [(2, 2); (3, 3); (4, 4); (5, 5); (6, 6); (7, 7); (8, 8)] /\
  push_history [(1, 1)] (2, 2) = [(1, 1); (2, 2)].
Proof.
  destruct history_never_exceeds_window as (_ & _ & Hfull & Hfree).
  split.
  - apply (Hfull [(1, 1); (2, 2); (3, 3); (4, 4); (5, 5); (6, 6); (7, 7)] (8, 8)).
    reflexivity.
  - apply (Hfree [(1, 1)] (2, 2)). unfold history_size. cbn. lia.
Defined.

(** *** The outlier scenario *)



(** *** The weighted average *)



Lemma int_of_float_quot (q : Q) (a b : Z) :
  0 < b -> (q == inject_Z a / inject_Z b)%Q -> int_of_float q = Z.quot a b.
Proof.
  intros Hb Hq. destruct b as [|pb|pb]; try lia.
  rewrite <- Qmake_Qdiv in Hq. destruct q as [n p].
  unfold Qeq in Hq. cbn in Hq. unfold int_of_float. cbn.
  rewrite <- (Z.quot_mul_cancel_r n (Zpos p) (Zpos pb)) by lia.
  rewrite Hq.
  rewrite (Z.mul_comm (Zpos p) (Zpos pb)).
  apply Z.quot_mul_cancel_r; lia.
Qed.



Section Linspace.

(** The samples of [np.linspace(0.5, 1.0, m + 2)]. *)
Variable m : nat.

Local Abbreviation d := (Z.of_nat (S m)).
Local Abbreviation g := (linspace_sample (1 # 2) 1 (S m)).






End Linspace.








(** ** Ball localization on the scripted frames *)

(** C2 (as stated, refuted). With a contour of area 60000 beside one
    of area 100, filtering first would locate the ball at the centroid
    (100, 200) of the second, but [detect_ball_position] looks at the
    largest contour only and returns nothing: an in-band contour does
    not guarantee a position. *)
Lemma in_band_contour_not_located :
  In Scene.ball_sized (findContours Scene.two_contours) /\
  in_band Scene.ball_sized /\
  locate_ball_filter_first (findContours Scene.two_contours) = Some (100, 200) /\
  detect_ball_position Scene.two_contours = inr None /\
  ~ (forall frame : @Frame Scene.scripted,
       (exists c, In c (findContours frame) /\ in_band c) ->
       exists p, detect_ball_position frame = inr (Some p)).
Proof.
  assert (Hband : in_band Scene.ball_sized).
  { apply in_bandb_iff. reflexivity. }
  assert (Hin : In Scene.ball_sized (findContours Scene.two_contours)).
  { right. left. reflexivity. }
  split; [exact Hin|]. split; [exact Hband|].
  split; [reflexivity|]. split; [reflexivity|].
  intros H. destruct (H Scene.two_contours) as [p Hp].
  - exists Scene.ball_sized. split; assumption.
  - discriminate Hp.
Qed.

Lemma detect_ball_position_largest_then_band_witness :
  detect_ball_position Scene.one_ball = inr (Some (100, 200)) /\
  detect_ball_position Scene.two_contours = inr None.
Proof.
  split.
  - destruct (detect_ball_position_largest_then_band Scene.one_ball)
      as (_ & H & _).
    destruct (H Scene.ball_sized eq_refl) as (_ & _ & Hsome & _).
    apply Hsome.
    + apply in_bandb_iff. reflexivity.
    + intros Hz. discriminate Hz.
  - destruct (detect_ball_position_largest_then_band Scene.two_contours)
      as (_ & H & _).
    destruct (H Scene.too_large eq_refl) as (_ & _ & _ & Hnone).
    apply Hnone. intros Hb. apply in_bandb_iff in Hb. discriminate Hb.
Defined.

Lemma detect_ball_position_division_guarded_witness :
  detect_ball_position Scene.flat_contour = inr None.
Proof.
  destruct (detect_ball_position_division_guarded Scene.flat_contour) as [_ H].
  destruct (H Scene.flat eq_refl) as [Hnone _].
  - reflexivity.
  - exact Hnone.
Defined.

(** ** The tracker lifecycle *)

Section Lifecycle.

Context {cv : OpenCV}.
Variable fps : Q.

(** C3 (amended). In the Tracking state, on a frame where the
    scheduled redetection fires and finds no subject, no tracker is
    initialised and the loop stays in Tracking, but the tracker at hand
    is updated on that frame like on any other: when the update
    succeeds the raw position of the frame is the center of the
    updated box, which also replaces the last known position and the
    tracked box; only when the update fails is the last known position
    reused, the last known position and the tracked box staying as
    they were. *)
Theorem redetection_miss_updates_tracker (st : state) (frame : Frame) (trk : Tracker) :
  tracker st = Some trk ->
  detection_interval fps <> 0 ->
  frame_num st mod detection_interval fps = 0 ->
  find_player_with_ball frame = inr None ->
  exists pos t,
    observe fps st frame = inr (pos, t) /\
    tr_tracker t = Some (fst (tracker_update trk frame)) /\
    match snd (tracker_update trk frame) with
    | Some bbox =>
        pos = box_center bbox /\
        tr_last t = Some (box_center bbox) /\ tr_bbox t = Some bbox
    | None =>
        pos = fallback_position st frame /\
        tr_last t = last_position st /\ tr_bbox t = tracked_bbox st
    end.
Proof.
  intros Htrk Hint Hmod Hfind.
  unfold observe, detection_phase, mod_.
  destruct (Z.eqb_spec (detection_interval fps) 0) as [?|_]; [contradiction|].
  cbn [bind ret Monad_either]. rewrite Hmod. cbn [Z.eqb orb].
  rewrite Hfind. cbn [bind ret Monad_either].
  unfold tracking_phase. cbn [tr_tracker]. rewrite Htrk.
  destruct (tracker_update trk frame) as [trk' [bbox|]]; cbn [fst snd].
  - eexists. eexists. split; [reflexivity|].
    cbn [tr_tracker tr_last tr_bbox fallback_phase player_pos]. auto.
  - unfold fallback_position. cbn [tr_last].
    destruct (last_position st) as [lp|] eqn:Hlast.
    + eexists. eexists. split; [reflexivity|].
      cbn [tr_tracker tr_last tr_bbox fallback_phase player_pos]. auto.
    + eexists. eexists. split; [reflexivity|].
      cbn [tr_tracker tr_last tr_bbox fallback_phase player_pos]. auto.
Qed.

(** The window of the loop state obeys the bound of the smoother
    after every frame. *)
Lemma track_loop_history_bounded (start_time duration : Q)
      (frames : list Frame) (st st' : state) :
  (length (position_history st) <= history_size)%nat ->
  track_loop fps start_time duration st frames = inr st' ->
  (length (position_history st') <= history_size)%nat.
Proof.
  revert st. induction frames as [|frame rest IH]; intros st Hlen Hrun.
  - injection Hrun as <-. exact Hlen.
  - cbn [track_loop bind Monad_either] in Hrun.
    destruct (track_frame fps start_time duration st frame) as [e|[st1|]] eqn:Hstep;
      try discriminate.
    + apply (IH st1); [|exact Hrun].
      unfold track_frame in Hstep.
      destruct (truediv (inject_Z (frame_num st)) fps) as [|elapsed]; [discriminate|].
      cbn [bind Monad_either] in Hstep.
      destruct (flt (start_time + duration) (start_time + elapsed)); [discriminate|].
      destruct (observe fps st frame) as [|[pos t]]; [discriminate|].
      cbn [bind Monad_either] in Hstep. unfold smoother_push in Hstep.
      destruct (smooth (push_history (position_history st) pos)) as [|[ax ay]];
        [discriminate|].
      cbn [bind ret Monad_either] in Hstep. injection Hstep as <-.
      cbn [position_history]. now apply push_history_length.
    + injection Hrun as <-. exact Hlen.
Qed.

End Lifecycle.

(** C3 (as stated, refuted). At frame 30 of a 30 fps clip the
    redetection is due; it finds nothing, and the tracker, updated on
    the same frame, reports the box (300, 300, 150, 150). The raw
    position of the frame is the center (375, 375) of that box, not the
    last known position (100, 100), and the tracker, the tracked box
    and the last known position have all changed. *)
Lemma redetection_miss_not_a_fallback :
  frame_num Scene.tracking_state mod detection_interval 30 = 0 /\
  find_player_with_ball Scene.nothing_detected = inr None /\
  observe 30 Scene.tracking_state Scene.nothing_detected
  = inr ((375, 375),
         @mkTracking Scene.scripted (Some (375, 375)) (Some (300, 300, 150, 150))
                     (Some (300, 300, 150, 150)) (Some (375, 375))) /\
  ~ (forall (st : @state Scene.scripted) (frame : @Frame Scene.scripted) lp,
       tracker st <> None ->
       last_position st = Some lp ->
       frame_num st mod detection_interval 30 = 0 ->
       find_player_with_ball frame = inr None ->
       exists t, observe 30 st frame = inr (lp, t) /\
                 tr_tracker t = tracker st /\
                 tr_bbox t = tracked_bbox st /\
                 tr_last t = last_position st).
Proof.
  split; [reflexivity|]. split; [reflexivity|]. split; [reflexivity|].
  intros H.
  destruct (H Scene.tracking_state Scene.nothing_detected (100, 100))
    as (t & Ht & _); try reflexivity.
  - discriminate.
  - vm_compute in Ht. discriminate Ht.
Qed.

Lemma redetection_miss_updates_tracker_witness :
  (exists t, observe 30 Scene.tracking_state Scene.nothing_detected
             = inr ((375, 375), t) /\
             @tr_tracker Scene.scripted t = Some (300, 300, 150, 150)) /\
  (exists t, observe 30 Scene.tracking_state Scene.nothing_at_all
             = inr ((100, 100), t) /\
             @tr_tracker Scene.scripted t = Some (25, 25, 150, 150) /\
             tr_last t = Some (100, 100)).
Proof.
  split.
  - destruct (redetection_miss_updates_tracker 30 Scene.tracking_state
                Scene.nothing_detected (25, 25, 150, 150))
      as (pos & t & Hobs & Htrk & Hpos & _); try reflexivity.
    + discriminate.
    + exists t. rewrite Hobs, Hpos. split; [reflexivity|exact Htrk].
  - destruct (redetection_miss_updates_tracker 30 Scene.tracking_state
                Scene.nothing_at_all (25, 25, 150, 150))
      as (pos & t & Hobs & Htrk & Hpos & Hlast & _); try reflexivity.
    + discriminate.
    + exists t. rewrite Hobs, Hpos. split; [reflexivity|].
      split; [exact Htrk|exact Hlast].
Defined.

(** * Further properties of the tracker and the clipper *)

(** ** Crop geometry *)

Lemma slice_len_full (n lo w : Z) :
  0 <= lo -> lo + w <= n -> 0 <= w -> slice_len n lo (lo + w) = w.
Proof. intros. unfold slice_len. lia. Qed.

(** The decision of [make_frame] once [cv2.resize] accepts the size:
    the origin is clamped, the vertical origin is 0 and the slice has
    the full target height. *)
Lemma make_frame_runs (self : VideoClipper) scale_factor scaled_width player_x player_y :
  0 < shorts_height self -> 0 < scaled_width ->
  exists c,
    make_frame self scale_factor scaled_width player_x player_y = inr c /\
    crop_x c = Z.max 0 (Z.min (int_of_float (inject_Z player_x * scale_factor)
                               - shorts_width self / 2)
                              (scaled_width - shorts_width self)) /\
    crop_y c = 0 /\
    cropped_height c = shorts_height self /\
    cropped_width c = slice_len scaled_width (crop_x c) (crop_x c + shorts_width self) /\
    padded c = (cropped_width c <? shorts_width self).
Proof.
  intros HH HS. unfold make_frame.
  destruct (Z.leb_spec scaled_width 0) as [?|_]; [lia|].
  destruct (Z.leb_spec (shorts_height self) 0) as [?|_]; [lia|].
  cbn [orb].
  set (off := int_of_float (inject_Z (shorts_height self) * (1 # 10))).
  set (pys := int_of_float (inject_Z player_y * scale_factor)).
  set (cx := Z.max 0 (Z.min (int_of_float (inject_Z player_x * scale_factor)
                             - shorts_width self / 2)
                            (scaled_width - shorts_width self))).
  set (cy := Z.max 0 (Z.min (pys - shorts_height self / 2 - off)
                            (shorts_height self - shorts_height self))).
  assert (Hcy : cy = 0) by (unfold cy; lia).
  assert (Hh : slice_len (shorts_height self) cy (cy + shorts_height self)
               = shorts_height self) by (unfold slice_len; lia).
  rewrite Hh, Z.ltb_irrefl. cbn [orb].
  destruct (slice_len scaled_width cx (cx + shorts_width self) <? shorts_width self)
    eqn:E; eexists; (split; [reflexivity|]);
    cbn [crop_x crop_y cropped_height cropped_width padded];
    rewrite ?E; auto.
Qed.

(** X11. The vertical position of the player has no effect on the crop:
    the scaled frame is exactly as high as the target, so the vertical
    origin is always 0 and neither [player_y] nor the 10 percent
    upward offset moves it. *)
Theorem make_frame_ignores_player_y (self : VideoClipper) scale_factor scaled_width
        player_x player_y player_y' :
  make_frame self scale_factor scaled_width player_x player_y
  = make_frame self scale_factor scaled_width player_x player_y' /\
  forall c, make_frame self scale_factor scaled_width player_x player_y = inr c ->
            crop_y c = 0 /\ cropped_height c = shorts_height self.
Proof.
  unfold make_frame.
  destruct ((scaled_width <=? 0) || (shorts_height self <=? 0)) eqn:E.
  - split; [reflexivity|]. intros c Hc. discriminate Hc.
  - apply orb_false_iff in E. destruct E as [_ E]. apply Z.leb_gt in E.
    set (off := int_of_float (inject_Z (shorts_height self) * (1 # 10))).
    set (cx := Z.max 0 (Z.min (int_of_float (inject_Z player_x * scale_factor)
                               - shorts_width self / 2)
                              (scaled_width - shorts_width self))).
    assert (Hcy : forall y, Z.max 0 (Z.min
              (int_of_float (inject_Z y * scale_factor) - shorts_height self / 2 - off)
              (shorts_height self - shorts_height self)) = 0) by (intros; lia).
    rewrite !Hcy.
    assert (Hh : slice_len (shorts_height self) 0 (0 + shorts_height self)
                 = shorts_height self) by (unfold slice_len; lia).
    rewrite Hh. split; [reflexivity|].
    intros c Hc.
    destruct ((shorts_height self <? shorts_height self)
              || (slice_len scaled_width cx (cx + shorts_width self) <? shorts_width self));
      injection Hc as <-; cbn; auto.
Qed.

Lemma make_frame_ignores_player_y_witness :
  exists c, make_frame init (8 # 3) 3413 650 700 = inr c /\ crop_y c = 0.
Proof.
  destruct (make_frame_runs init (8 # 3) 3413 650 700) as (c & Hc & _);
    [reflexivity|reflexivity|].
  exists c. split; [exact Hc|].
  destruct (make_frame_ignores_player_y init (8 # 3) 3413 650 700 0) as [_ H].
  apply (H c Hc).
Defined.

(** X12. When the scaled frame is at least as wide as the target and the
    scaled player position lies inside the scaled frame, the crop that
    [make_frame] takes contains the player horizontally. *)
Theorem make_frame_keeps_player_in_crop (self : VideoClipper) scale_factor
        scaled_width player_x player_y :
  0 < shorts_width self -> 0 < shorts_height self ->
  shorts_width self <= scaled_width ->
  0 <= int_of_float (inject_Z player_x * scale_factor) < scaled_width ->
  exists c,
    make_frame self scale_factor scaled_width player_x player_y = inr c /\
    crop_x c <= int_of_float (inject_Z player_x * scale_factor)
             < crop_x c + shorts_width self.
Proof.
  intros HW HH Hfit Hin.
  destruct (make_frame_runs self scale_factor scaled_width player_x player_y)
    as (c & Hc & Hx & _); [lia|lia|].
  exists c. split; [exact Hc|]. rewrite Hx.
  set (pxs := int_of_float (inject_Z player_x * scale_factor)) in *.
  assert (Hhalf : 0 <= shorts_width self / 2) by (apply Z.div_pos; lia).
  assert (Hlt : shorts_width self / 2 < shorts_width self)
    by (apply Z.div_lt; lia).
  lia.
Qed.

Lemma make_frame_keeps_player_in_crop_witness :
  exists c, make_frame init (8 # 3) 3413 650 360 = inr c /\
            crop_x c <= 1733 < crop_x c + 1080.
Proof.
  apply (make_frame_keeps_player_in_crop init (8 # 3) 3413 650 360);
    cbn; lia.
Defined.

(** X9. [get_crop_region] keeps a player that is inside the frame inside
    the crop on both axes, whenever the crop fits in the frame. *)
Theorem get_crop_region_contains_player (px py fw fh cw ch : Z) :
  0 < cw -> 0 < ch -> cw <= fw -> ch <= fh ->
  0 <= px < fw -> 0 <= py < fh ->
  exists x y,
    get_crop_region px py fw fh cw ch = inr (x, y) /\
    x <= px < x + cw /\ y <= py < y + ch.
Proof.
  intros Hcw Hch Hw Hh Hpx Hpy. unfold get_crop_region.
  assert (Hoff : int_of_float (inject_Z ch * (1 # 10)) = ch / 10).
  { rewrite (int_of_float_quot _ ch 10); [apply Z.quot_div_nonneg; lia|lia|].
    rewrite (Qmake_Qdiv 1 10). change (inject_Z 1) with 1%Q.
    change (inject_Z (Zpos 10)) with (inject_Z 10). field. }
  rewrite Hoff.
  eexists. eexists. split; [reflexivity|].
  assert (0 <= cw / 2 < cw) by (split; [apply Z.div_pos|apply Z.div_lt]; lia).
  assert (H2 : 2 * (ch / 2) <= ch) by (apply Z.mul_div_le; lia).
  assert (H10 : 10 * (ch / 10) <= ch) by (apply Z.mul_div_le; lia).
  assert (0 <= ch / 2) by (apply Z.div_pos; lia).
  assert (0 <= ch / 10) by (apply Z.div_pos; lia).
  lia.
Qed.

Lemma get_crop_region_contains_player_witness :
  exists x y, get_crop_region 650 360 1280 720 405 720 = inr (x, y) /\
              x <= 650 < x + 405 /\ y <= 360 < y + 720.
Proof.
  apply (get_crop_region_contains_player 650 360 1280 720 405 720); lia.
Defined.



(** ** The position a rendered frame follows *)

Lemma keep_nearer_cases (ct : Q) (best c : Q * Z * Z) :
  (keep_nearer ct best c = c /\ (time_gap ct c < time_gap ct best)%Q) \/
  (keep_nearer ct best c = best /\ (time_gap ct best <= time_gap ct c)%Q).
Proof.
  unfold keep_nearer, time_gap.
  destruct (flt (Qabs (fst (fst c) - ct)) (Qabs (fst (fst best) - ct))) eqn:E.
  - left. split; [reflexivity|]. now apply flt_iff.
  - right. split; [reflexivity|]. now apply flt_false_iff.
Qed.

Lemma first_closest_min ct positions best :
  first_closest ct positions best ->
  In best positions /\
  forall c, In c positions -> (time_gap ct best <= time_gap ct c)%Q.
Proof.
  intros (before & after & -> & Hb & Ha). split.
  - apply in_or_app. right. now left.
  - intros c Hin. apply in_app_or in Hin as [Hin|[<-|Hin]].
    + apply Qlt_le_weak. auto.
    + apply Qle_refl.
    + auto.
Qed.

Lemma fold_keep_nearer_spec ct (rest : list (Q * Z * Z)) (x : Q * Z * Z) :
  first_closest ct (x :: rest) (fold_left (keep_nearer ct) rest x).
Proof.
  induction rest as [|c l IH] using rev_ind.
  - exists [], []. split; [reflexivity|]. split; intros c [].
  - rewrite fold_left_app. cbn [fold_left].
    set (best := fold_left (keep_nearer ct) l x) in *.
    destruct (keep_nearer_cases ct best c) as [[-> Hlt]|[-> Hle]].
    + exists (x :: l), []. split; [reflexivity|]. split; [|intros b []].
      intros b Hin. destruct (first_closest_min _ _ _ IH) as [_ Hmin].
      eapply Qlt_le_trans; [exact Hlt|]. now apply Hmin.
    + destruct IH as (before & after & Heq & Hb & Ha).
      exists before, (after ++ [c]). split; [|split].
      * change (x :: l ++ [c]) with ((x :: l) ++ [c]).
        rewrite Heq, <- app_assoc. reflexivity.
      * exact Hb.
      * intros b Hin. apply in_app_or in Hin as [Hin|[<-|[]]]; auto.
Qed.

(** X13. For a rendered frame the clip follows the tracked position whose
    timestamp is nearest to the time of the frame, the first such
    position of the list; without any tracked position it follows the
    center of the source, and a zero frame rate raises
    [ZeroDivisionError]. *)
Theorem frame_position_nearest_in_time (original_width original_height : Z)
        (fps : Q) (frame_counter : Z) :
  (forall positions, (fps == 0)%Q ->
     frame_position positions original_width original_height fps frame_counter
     = inl ZeroDivisionError) /\
  (~ (fps == 0)%Q ->
   frame_position [] original_width original_height fps frame_counter
   = inr (original_width / 2, original_height / 2)) /\
  (forall p positions, ~ (fps == 0)%Q ->
     exists best,
       first_closest (inject_Z frame_counter / fps) (p :: positions) best /\
       frame_position (p :: positions) original_width original_height fps frame_counter
       = inr (snd (fst best), snd best)).
Proof.
  assert (Hz : (fps == 0)%Q -> Qeq_bool fps 0 = true) by apply Qeq_bool_iff.
  assert (Hnz : ~ (fps == 0)%Q -> Qeq_bool fps 0 = false).
  { intros H. destruct (Qeq_bool fps 0) eqn:E; [|reflexivity].
    apply Qeq_bool_iff in E. contradiction. }
  unfold frame_position, truediv. split; [|split].
  - intros positions H. rewrite (Hz H). reflexivity.
  - intros H. rewrite (Hnz H). reflexivity.
  - intros p positions H. rewrite (Hnz H). cbn [bind ret Monad_either closest_pos].
    pose proof (fold_keep_nearer_spec (inject_Z frame_counter / fps) positions p) as Hf.
    destruct (fold_left (keep_nearer (inject_Z frame_counter / fps)) positions p)
      as [[t x] y] eqn:E.
    exists (t, x, y). split; [exact Hf|reflexivity].
Qed.

Lemma frame_position_nearest_in_time_witness :
  frame_position [(0%Q, 100, 200); (1 # 2, 300, 400); (1%Q, 500, 600)] 1280 720 30 14
  = inr (300, 400) /\
  frame_position [(0%Q, 100, 200)] 1280 720 0 14 = inl ZeroDivisionError.
Proof.
  destruct (frame_position_nearest_in_time 1280 720 0 14) as (Hz & _).
  split; [reflexivity|]. apply Hz. reflexivity.
Defined.

(** ** Padding is decided by the aspect ratio of the source *)





(** ** The clips made from the highlights *)

Lemma create_clips_from_spec create_clip (highlights : list highlight) (idx : nat) :
  let clips := create_clips_from create_clip idx highlights in
  (forall c, In c clips <->
     exists k hl, nth_error highlights k = Some hl /\
                  truthy (create_clip (get (hl_timestamp hl) 0%Q) (idx + k)%nat) = true /\
                  c = clip_of create_clip (idx + k) hl) /\
  Forall (fun c => (idx <= clip_id c)%nat) clips /\
  StronglySorted lt (map clip_id clips) /\
  (length clips <= length highlights)%nat.
Proof.
  revert idx. induction highlights as [|hl rest IH]; intros idx; cbn zeta.
  - cbn. split; [|split; [constructor|split; [constructor|lia]]].
    intros c. split; [intros []|]. intros (k & h & Hk & _). destruct k; discriminate.
  - destruct (IH (S idx)) as (Hin & Hge & Hsorted & Hlen).
    assert (Hge' : Forall (fun c => (idx < clip_id c)%nat)
                          (create_clips_from create_clip (S idx) rest)).
    { eapply Forall_impl; [|exact Hge]. cbn. intros; lia. }
    assert (Hrest : forall c,
              In c (create_clips_from create_clip (S idx) rest) <->
              exists k h, nth_error (hl :: rest) (S k) = Some h /\
                          truthy (create_clip (get (hl_timestamp h) 0%Q) (idx + S k)%nat) = true /\
                          c = clip_of create_clip (idx + S k) h).
    { intros c. rewrite Hin. cbn [nth_error].
      split; intros (k & h & Hk & Ht & Hc); exists k, h;
        replace (idx + S k)%nat with (S idx + k)%nat in * by lia; auto. }
    cbn [create_clips_from].
    destruct (truthy (create_clip (get (hl_timestamp hl) 0%Q) idx)) eqn:E.
    + split; [|split; [|split]].
      * intros c. cbn [In]. rewrite Hrest. split.
        -- intros [<-|(k & h & H)].
           ++ exists 0%nat, hl. rewrite Nat.add_0_r. auto.
           ++ exists (S k), h. exact H.
        -- intros ([|k] & h & Hk & Ht & Hc).
           ++ left. cbn in Hk. injection Hk as <-. rewrite Nat.add_0_r in Hc.
              symmetry. exact Hc.
           ++ right. exists k, h. auto.
      * constructor; [cbn; lia|]. eapply Forall_impl; [|exact Hge]. cbn. intros; lia.
      * cbn [map clip_id]. constructor; [exact Hsorted|].
        apply Forall_map. exact Hge'.
      * cbn [length]. lia.
    + split; [|split; [|split]].
      * intros c. rewrite Hrest. split.
        -- intros (k & h & H). exists (S k), h. exact H.
        -- intros ([|k] & h & Hk & Ht & Hc).
           ++ cbn in Hk. injection Hk as <-. rewrite Nat.add_0_r in Ht. congruence.
           ++ exists k, h. auto.
      * eapply Forall_impl; [|exact Hge]. cbn. intros; lia.
      * exact Hsorted.
      * cbn [length]. lia.
Qed.

(** X16. [create_all_clips] returns, in the order of the highlights, one
    entry for each highlight whose clip could be made (a non-empty
    path) and none for the others. The [id] of an entry is the index of
    its highlight in the input, so the ids increase strictly and are
    not renumbered when a clip fails; timestamp, description and score
    are those of the highlight, with 0, the empty string and 0 for a
    missing key. *)
Theorem create_all_clips_keeps_indices create_clip (highlights : list highlight) :
  let clips := create_all_clips create_clip highlights in
  (forall c, In c clips <->
     exists idx hl, nth_error highlights idx = Some hl /\
                    truthy (create_clip (get (hl_timestamp hl) 0%Q) idx) = true /\
                    c = clip_of create_clip idx hl) /\
  StronglySorted lt (map clip_id clips) /\
  (length clips <= length highlights)%nat.
Proof.
  destruct (create_clips_from_spec create_clip highlights 0) as (Hin & _ & Hs & Hl).
  split; [|split; assumption].
  intros c. apply Hin.
Qed.

Lemma create_all_clips_keeps_indices_witness :
  map clip_id (create_all_clips Takes.create_clip Takes.highlights) = [0; 2]%nat /\
  In (clip_of Takes.create_clip 2 Takes.buzzer)
     (create_all_clips Takes.create_clip Takes.highlights).
Proof.
  split; [reflexivity|].
  apply (create_all_clips_keeps_indices Takes.create_clip Takes.highlights).
  exists 2%nat, Takes.buzzer. repeat split.
Defined.

(** ** The smoothed position stays among the raw ones *)







(** ** Person detection and subject selection on a frame *)


Section FrameFacts.

Context {cv : OpenCV}.



(** X1. The person boxes [detect_players] returns are exactly the boxes of
    the detector whose height exceeds 0.8 times their width, that is
    with [4 * w < 5 * h]. *)
Theorem detect_players_taller_than_wide (frame : Frame) (x y w h : Z) :
  In (x, y, w, h) (detect_players frame) <->
  In (x, y, w, h) (detectMultiScale frame) /\ 4 * w < 5 * h.
Proof.
  unfold detect_players. rewrite filter_In.
  assert (Hq : flt (inject_Z w * (8 # 10)) (inject_Z h) = true <-> 4 * w < 5 * h).
  { rewrite flt_iff. unfold Qlt. cbn [Qnum Qden inject_Z Qmult].
    rewrite Z.mul_1_r. change (Z.pos (1 * 10)) with 10. lia. }
  rewrite Hq. reflexivity.
Qed.


End FrameFacts.


(** ** The frame loop *)


Lemma int_of_float_small (q : Q) : (-1 < q)%Q -> (q < 1)%Q -> int_of_float q = 0.
Proof.
  destruct q as [n d]. unfold Qlt, int_of_float. cbn [Qnum Qden].
  intros Hlo Hhi. rewrite Z.mul_1_r in *. rewrite Z.mul_1_l in Hhi.
  destruct (Z_le_gt_dec 0 n).
  - apply Z.quot_small. lia.
  - replace n with (- (- n)) by lia. rewrite Z.quot_opp_l by lia.
    rewrite Z.quot_small by lia. reflexivity.
Qed.

Section LoopFacts.

Context {cv : OpenCV}.
Variables fps start_time duration : Q.


Lemma detection_interval_zero :
  (-2 < fps)%Q -> (fps < 2)%Q -> detection_interval fps = 0.
Proof.
  intros Hlo Hhi. apply int_of_float_small; lra.
Qed.


Lemma tracking_phase_keeps (t : tracking) (frame : Frame) :
  (tr_tracker t = None -> tracking_phase t frame = t) /\
  (tr_tracker t <> None -> tr_tracker (tracking_phase t frame) <> None) /\
  ((tr_tracker t <> None -> tr_last t <> None /\ tr_bbox t <> None) ->
   tr_tracker (tracking_phase t frame) <> None ->
   tr_last (tracking_phase t frame) <> None /\
   tr_bbox (tracking_phase t frame) <> None).
Proof.
  unfold tracking_phase. destruct (tr_tracker t) as [trk|] eqn:Ht.
  - destruct (tracker_update trk frame) as [trk' [bbox|]].
    + cbn. repeat split; discriminate.
    + destruct (tr_last t) as [lp|] eqn:Hl; cbn; rewrite ?Hl;
        (split; [discriminate|]); (split; [discriminate|]);
        intros H _; apply H; discriminate.
  - split; [reflexivity|]. split; [contradiction|].
    intros _ H. rewrite Ht in H. contradiction.
Qed.

Lemma observe_keeps (st : state) (frame : Frame) (pos : point) (t : tracking) :
  observe fps st frame = inr (pos, t) ->
  (tracker st <> None -> tr_tracker t <> None) /\
  (tracked_has_position st ->
   tr_tracker t <> None -> tr_last t <> None /\ tr_bbox t <> None).
Proof.
  unfold observe. intros H.
  destruct (detection_phase fps st frame) as [e|t0] eqn:Hd; [discriminate|].
  cbn [bind ret Monad_either] in H. injection H as _ <-.
  destruct (tracking_phase_keeps t0 frame) as (_ & Hmono & Hinv).
  assert (Ht0 : (tracker st <> None -> tr_tracker t0 <> None) /\
                (tracked_has_position st ->
                 tr_tracker t0 <> None -> tr_last t0 <> None /\ tr_bbox t0 <> None)).
  { unfold detection_phase in Hd.
    destruct (mod_ (frame_num st) (detection_interval fps)) as [|r]; [discriminate|].
    cbn [bind ret Monad_either] in Hd.
    destruct ((r =? 0) || match tracker st with None => true | Some _ => false end).
    - destruct (find_player_with_ball frame) as [|[[px py]|]]; [discriminate| |];
        cbn [bind ret Monad_either] in Hd; injection Hd as <-; cbn.
      + split; intros; repeat split; discriminate.
      + split; [auto|]. intros Hi. exact Hi.
    - injection Hd as <-. cbn. split; [auto|]. intros Hi. exact Hi. }
  destruct Ht0 as [Hm0 Hi0]. split.
  - intros Hs. apply Hmono, Hm0, Hs.
  - intros Hi. apply Hinv, Hi0, Hi.
Qed.

Lemma track_frame_inv (st st' : state) (frame : Frame) :
  track_frame fps start_time duration st frame = inr (Some st') ->
  exists pos t avg,
    observe fps st frame = inr (pos, t) /\
    smoother_push (position_history st) pos
    = inr (push_history (position_history st) pos, avg) /\
    st' = mkState (frame_num st + 1) (tr_tracker t) (tr_bbox t) (tr_last t)
                  (push_history (position_history st) pos)
                  (positions st
                   ++ [((start_time + inject_Z (frame_num st) / fps)%Q,
                        fst avg, snd avg)]).
Proof.
  unfold track_frame, truediv. intros H.
  destruct (Qeq_bool fps 0); [discriminate|].
  cbn [bind ret Monad_either] in H.
  destruct (flt (start_time + duration) (start_time + inject_Z (frame_num st) / fps));
    [discriminate|].
  destruct (observe fps st frame) as [|[pos t]]; [discriminate|].
  cbn [bind Monad_either] in H.
  unfold smoother_push in H. cbv zeta in H.
  destruct (smooth (push_history (position_history st) pos)) as [|[ax ay]] eqn:Hs;
    [discriminate|].
  cbn [bind ret Monad_either] in H. injection H as <-.
  exists pos, t, (ax, ay). split; [reflexivity|]. split; [|reflexivity].
  unfold smoother_push. cbv zeta. rewrite Hs. reflexivity.
Qed.

(** Induction over the loop: a property of the loop variables that
    every completed iteration on a frame of the list preserves holds
    when the loop returns. *)
Lemma track_loop_invariant (I : state -> Prop) (frames : list Frame) :
  (forall st frame st',
     In frame frames -> I st ->
     track_frame fps start_time duration st frame = inr (Some st') -> I st') ->
  forall st st',
    I st -> track_loop fps start_time duration st frames = inr st' -> I st'.
Proof.
  induction frames as [|frame rest IH]; intros Hstep st st' Hi Hrun.
  - injection Hrun as <-. exact Hi.
  - cbn [track_loop bind Monad_either] in Hrun.
    destruct (track_frame fps start_time duration st frame) as [|[st1|]] eqn:Hf;
      try discriminate.
    + apply (IH (fun s f s' Hin => Hstep s f s' (or_intror Hin)) st1 st');
        [|exact Hrun].
      apply (Hstep st frame st1); [now left|exact Hi|exact Hf].
    + injection Hrun as <-. exact Hi.
Qed.

End LoopFacts.

Section LoopProperties.

Context {cv : OpenCV}.
Variables fps start_time duration : Q.

(** X4. Once a tracker has been initialised the loop never goes back to
    having none, and from the start of the loop on a last known
    position and a tracked box exist whenever a tracker does: after the
    first detection the fallback to the frame center is never taken
    again. *)
Theorem tracker_once_set_stays_set (frames : list Frame) :
  (forall st',
     track_loop fps start_time duration initial_state frames = inr st' ->
     tracked_has_position st') /\
  (forall st st',
     tracker st <> None ->
     track_loop fps start_time duration st frames = inr st' ->
     tracker st' <> None).
Proof.
  split.
  - intros st'. apply (track_loop_invariant fps start_time duration tracked_has_position).
    + intros st frame st1 _ Hi Hf.
      destruct (track_frame_inv _ _ _ _ _ _ Hf) as (pos & t & avg & Hobs & _ & ->).
      destruct (observe_keeps _ _ _ _ _ Hobs) as [_ Hk].
      unfold tracked_has_position. cbn [tracker last_position tracked_bbox].
      apply Hk, Hi.
    + unfold tracked_has_position, initial_state. cbn. contradiction.
  - intros st st'.
    apply (track_loop_invariant fps start_time duration (fun s => tracker s <> None)).
    intros s frame s1 _ Hi Hf.
    destruct (track_frame_inv _ _ _ _ _ _ Hf) as (pos & t & avg & Hobs & _ & ->).
    destruct (observe_keeps _ _ _ _ _ Hobs) as [Hk _].
    cbn [tracker]. apply Hk, Hi.
Qed.






(** X7. Below 2 frames per second [int(fps * 0.5)] is 0: on the first
    frame the loop raises [ZeroDivisionError], from [frame_num / fps]
    when [fps] is 0 and from [frame_num % detection_interval]
    otherwise. *)
Theorem low_frame_rate_raises (frame : Frame) (rest : list Frame) :
  (-2 < fps)%Q -> (fps < 2)%Q -> (0 <= duration)%Q ->
  track_player_with_ball fps start_time duration (frame :: rest)
  = inl ZeroDivisionError.
Proof.
  intros Hlo Hhi Hdur.
  unfold track_player_with_ball, track_loop, track_frame, truediv.
  cbn [initial_state frame_num].
  destruct (Qeq_bool fps 0) eqn:E; [reflexivity|].
  cbn [bind ret Monad_either].
  assert (Hflt : flt (start_time + duration) (start_time + inject_Z 0 / fps) = false).
  { apply flt_false_iff. rewrite Qplus_le_r.
    assert (Hz : (inject_Z 0 / fps == 0)%Q).
    { unfold Qdiv. change (inject_Z 0) with 0%Q. ring. }
    rewrite Hz. exact Hdur. }
  rewrite Hflt. unfold observe, detection_phase, mod_.
  rewrite (detection_interval_zero fps Hlo Hhi). reflexivity.
Qed.

(** X3. On a frame where detection runs and finds a player at [(px, py)],
    whatever tracker existed is replaced by one initialised on the
    150 x 150 box around the player, clamped to non-negative
    coordinates, and this new tracker is updated on the same frame: the
    position of the frame is the center of the box it reports, and the
    detected position only when the update fails. *)
Theorem detection_replaces_tracker (st : state) (frame : Frame) (px py : Z) :
  detection_interval fps <> 0 ->
  frame_num st mod detection_interval fps = 0 \/ tracker st = None ->
  find_player_with_ball frame = inr (Some (px, py)) ->
  let bbox := (Z.max 0 (px - 75), Z.max 0 (py - 75), 150, 150) in
  let updated := tracker_update (tracker_init frame bbox) frame in
  let pos := match snd updated with
             | Some reported => box_center reported
             | None => (px, py)
             end in
  observe fps st frame
  = inr (pos, mkTracking (Some pos) (Some (fst updated))
                         (match snd updated with
                          | Some reported => Some reported
                          | None => Some bbox
                          end)
                         (Some pos)).
Proof.
  intros Hint Hdue Hfind. cbv zeta.
  unfold observe, detection_phase, mod_.
  destruct (Z.eqb_spec (detection_interval fps) 0) as [?|_]; [contradiction|].
  cbn [bind ret Monad_either].
  assert (Hd : (frame_num st mod detection_interval fps =? 0)
               || match tracker st with None => true | Some _ => false end = true).
  { destruct Hdue as [->| ->]; [reflexivity|apply orb_true_r]. }
  rewrite Hd, Hfind. cbn [bind ret Monad_either].
  unfold tracking_phase. cbn [tr_tracker tr_last tr_bbox player_pos].
  change (bbox_size / 2) with 75. change (Z.max 0 bbox_size) with 150.
  destruct (tracker_update (tracker_init frame
              (Z.max 0 (px - 75), Z.max 0 (py - 75), 150, 150)) frame)
    as [trk' [reported|]]; reflexivity.
Qed.

End LoopProperties.

Lemma tracker_once_set_stays_set_witness :
  exists st',
    track_loop 30 0 30 Scene.tracking_state [Scene.nothing_at_all] = inr st' /\
    tracker st' <> None.
Proof.
  eexists. split; [vm_compute; reflexivity|].
  destruct (tracker_once_set_stays_set 30 0 30 [Scene.nothing_at_all]) as [_ H].
  apply (H Scene.tracking_state); [discriminate|vm_compute; reflexivity].
Defined.



Lemma low_frame_rate_raises_witness :
  track_player_with_ball 1 0 30 [Scene.nothing_at_all] = inl ZeroDivisionError.
Proof.
  apply (low_frame_rate_raises 1 0 30 Scene.nothing_at_all []);
    unfold Qlt, Qle; cbn; lia.
Defined.

Lemma detection_replaces_tracker_witness :
  observe 30 Scene.tracking_state Footage.player_with_ball
  = inr ((660, 370),
         @mkTracking Scene.scripted (Some (660, 370)) (Some (610, 260, 100, 220))
                     (Some (610, 260, 100, 220)) (Some (660, 370))).
Proof.
  apply (detection_replaces_tracker 30 Scene.tracking_state
           Footage.player_with_ball 650 360).
  - discriminate.
  - left. reflexivity.
  - reflexivity.
Defined.

(** ** The renderer follows the tracker frame by frame *)



Section Rendering.

Context {cv : OpenCV}.
Variables fps duration : Q.


End Rendering.


(** * Properties of the fusion of highlights *)

Module FusionFacts.

Import Fusion.

Lemma insert_sorted_perm (e : entry) (l : list entry) :
  Permutation (insert_sorted e l) (e :: l).
Proof.
  induction l as [|x rest IH]; cbn [insert_sorted]; [reflexivity|].
  destruct (flt (score x) (score e)); [reflexivity|].
  rewrite IH. apply perm_swap.
Qed.

Lemma sort_fold_perm (l acc : list entry) :
  Permutation (fold_left (fun sorted e => insert_sorted e sorted) l acc) (acc ++ l).
Proof.
  revert acc. induction l as [|e l IH]; intros acc; cbn [fold_left].
  - rewrite app_nil_r. reflexivity.
  - rewrite IH, insert_sorted_perm. apply Permutation_middle.
Qed.

Lemma sort_by_score_perm (l : list entry) : Permutation (sort_by_score l) l.
Proof. unfold sort_by_score. apply sort_fold_perm. Qed.

Lemma insert_sorted_sorted (e : entry) (l : list entry) :
  StronglySorted scores_at_least l ->
  StronglySorted scores_at_least (insert_sorted e l).
Proof.
  intros Hs. induction Hs as [|x rest Hs IH Hall]; cbn [insert_sorted].
  - constructor; constructor.
  - destruct (flt (score x) (score e)) eqn:E.
    + apply flt_iff in E. constructor; [constructor; assumption|].
      constructor; [apply Qlt_le_weak; exact E|].
      eapply Forall_impl; [|exact Hall]. unfold scores_at_least. intros a Ha.
      eapply Qle_trans; [exact Ha|]. apply Qlt_le_weak. exact E.
    + apply flt_false_iff in E. constructor; [exact IH|].
      eapply Permutation_Forall; [symmetry; apply insert_sorted_perm|].
      constructor; assumption.
Qed.

Lemma sort_by_score_sorted (l : list entry) :
  StronglySorted scores_at_least (sort_by_score l).
Proof.
  unfold sort_by_score.
  assert (H : forall acc, StronglySorted scores_at_least acc ->
            StronglySorted scores_at_least
              (fold_left (fun sorted e => insert_sorted e sorted) l acc)).
  { induction l as [|e l IH]; intros acc Hacc; cbn [fold_left]; [exact Hacc|].
    apply IH, insert_sorted_sorted, Hacc. }
  apply H. constructor.
Qed.

Lemma in_firstn (k : nat) (l : list entry) (a : entry) : In a (firstn k l) -> In a l.
Proof.
  intros H. rewrite <- (firstn_skipn k l). apply in_or_app. now left.
Qed.

Lemma in_skipn (k : nat) (l : list entry) (a : entry) : In a (skipn k l) -> In a l.
Proof.
  intros H. rewrite <- (firstn_skipn k l). apply in_or_app. now right.
Qed.

Lemma sorted_firstn_skipn (R : entry -> entry -> Prop) (l : list entry) (k : nat) :
  StronglySorted R l ->
  StronglySorted R (firstn k l) /\
  forall a b, In a (firstn k l) -> In b (skipn k l) -> R a b.
Proof.
  intros Hs. revert k. induction Hs as [|x rest Hs IH Hall]; intros k.
  - rewrite firstn_nil, skipn_nil. split; [constructor|intros a b []].
  - destruct k as [|k]; cbn [firstn skipn].
    + split; [constructor|intros a b []].
    + destruct (IH k) as [Hf Hr]. split.
      * constructor; [exact Hf|].
        apply Forall_forall. intros a Ha. rewrite Forall_forall in Hall.
        apply Hall. eapply in_firstn. exact Ha.
      * intros a b [<-|Ha] Hb.
        -- rewrite Forall_forall in Hall. apply Hall.
           eapply in_skipn. exact Hb.
        -- apply Hr; assumption.
Qed.

(** X17. [fuse] returns at most five entries, ordered by decreasing score,
    all taken from the merged list; an entry of the merged list that is
    left out scores no more than any entry returned, and nothing is
    left out when the merged list has at most five entries. *)
Theorem fuse_returns_top_five (self : HighlightFusion)
        (text_highlights visual_highlights : list highlight) :
  let merged := candidates self text_highlights visual_highlights in
  let top := fuse self text_highlights visual_highlights in
  (length top <= 5)%nat /\
  StronglySorted scores_at_least top /\
  (forall e, In e top -> In e merged) /\
  (forall e c, In e top -> In c merged -> ~ In c top -> scores_at_least e c) /\
  ((length merged <= 5)%nat -> Permutation top merged).
Proof.
  intros merged top. unfold top, fuse. fold merged.
  pose proof (sort_by_score_perm merged) as Hperm.
  destruct (sorted_firstn_skipn scores_at_least (sort_by_score merged) 5
              (sort_by_score_sorted merged)) as [Hsorted Hsplit].
  split; [apply firstn_le_length|]. split; [exact Hsorted|]. split; [|split].
  - intros e He. eapply Permutation_in; [exact Hperm|].
    eapply in_firstn. exact He.
  - intros e c He Hc Hout. apply Hsplit; [exact He|].
    apply (Permutation_in _ (Permutation_sym Hperm)) in Hc.
    rewrite <- (firstn_skipn 5 (sort_by_score merged)) in Hc.
    apply in_app_or in Hc as [Hc|Hc]; [contradiction|exact Hc].
  - intros Hlen. rewrite firstn_all2; [exact Hperm|].
    rewrite (Permutation_length Hperm). exact Hlen.
Qed.

(** *** Folds over [enumerate] *)

Lemma fold_left_invariant {A B : Type} (f : A -> B -> A) (P : A -> Prop)
      (l : list B) (a : A) :
  P a -> (forall acc x, In x l -> P acc -> P (f acc x)) -> P (fold_left f l a).
Proof.
  revert a. induction l as [|x l IH]; intros a Ha Hstep; cbn [fold_left]; [exact Ha|].
  apply IH.
  - apply Hstep; [now left|exact Ha].
  - intros acc y Hy. apply Hstep. now right.
Qed.

Lemma fold_left_indexed {A B : Type} (f : A -> nat * B -> A) (P : nat -> A -> Prop)
      (l : list B) (a : A) :
  P 0%nat a ->
  (forall k x acc, nth_error l k = Some x -> P k acc -> P (S k) (f acc (k, x))) ->
  P (length l) (fold_left f (enumerate l) a).
Proof.
  unfold enumerate.
  assert (H : forall (rest : list B) (s : nat) (acc : A),
            (forall k x, nth_error rest k = Some x -> nth_error l (s + k) = Some x) ->
            (forall k x acc, nth_error l k = Some x -> P k acc -> P (S k) (f acc (k, x))) ->
            P s acc ->
            P (s + length rest)%nat
              (fold_left f (combine (seq s (length rest)) rest) acc)).
  { induction rest as [|x rest IH]; intros s acc Hsub Hstep Hacc.
    - cbn. rewrite Nat.add_0_r. exact Hacc.
    - cbn [length seq combine fold_left].
      replace (s + S (length rest))%nat with (S s + length rest)%nat by lia.
      apply IH.
      + intros k y Hk. replace (S s + k)%nat with (s + S k)%nat by lia.
        apply Hsub. exact Hk.
      + exact Hstep.
      + apply Hstep; [|exact Hacc].
        specialize (Hsub 0%nat x eq_refl). rewrite Nat.add_0_r in Hsub. exact Hsub. }
  intros Ha Hstep. apply (H l 0%nat a); auto.
Qed.

Lemma in_enumerate {A : Type} (l : list A) (j : nat) (v : A) :
  In (j, v) (enumerate l) <-> nth_error l j = Some v.
Proof.
  unfold enumerate.
  assert (H : forall (rest : list A) (s : nat),
            In (j, v) (combine (seq s (length rest)) rest) <->
            (s <= j)%nat /\ nth_error rest (j - s) = Some v).
  { induction rest as [|x rest IH]; intros s; cbn [length seq combine In].
    - split; [intros []|]. intros [_ H]. destruct (j - s)%nat; discriminate.
    - rewrite IH. split.
      + intros [[= <- <-]|[Hle Hn]].
        * split; [lia|]. rewrite Nat.sub_diag. reflexivity.
        * split; [lia|]. replace (j - s)%nat with (S (j - S s)) by lia. exact Hn.
      + intros [Hle Hn]. destruct (Nat.eq_dec s j) as [->|Hne].
        * left. rewrite Nat.sub_diag in Hn. cbn in Hn. congruence.
        * right. split; [lia|].
          replace (j - s)%nat with (S (j - S s)) in Hn by lia. exact Hn. }
  rewrite H, Nat.sub_0_r. split; [tauto|]. intros Hn. split; [lia|exact Hn].
Qed.

Lemma mem_iff (j : nat) (used : list nat) : mem j used = true <-> In j used.
Proof.
  unfold mem. rewrite existsb_exists. split.
  - intros (x & Hx & He). apply Nat.eqb_eq in He. now subst.
  - intros H. exists j. split; [exact H|apply Nat.eqb_refl].
Qed.

(** *** The best visual match of a text highlight *)

Lemma best_match_spec (self : HighlightFusion) (text_hl : highlight)
      (visual_highlights : list highlight) :
  match best_match self text_hl visual_highlights with
  | (Some j, s) =>
      exists visual_hl,
        nth_error visual_highlights j = Some visual_hl /\
        s = (get (hl_score text_hl) 5 + get (hl_score visual_hl) (1 # 2) * 2)%Q /\
        (0 < s)%Q /\
        (Qabs (get (hl_timestamp text_hl) 0 - get (hl_timestamp visual_hl) 0)
         <= overlap_threshold self)%Q
  | (None, s) => s = 0%Q
  end.
Proof.
  unfold best_match. apply fold_left_invariant; [reflexivity|].
  intros [best s] [j v] Hin Hacc. apply in_enumerate in Hin.
  unfold match_step. cbn [fst snd].
  destruct (Qle_bool (Qabs (get (hl_timestamp text_hl) 0%Q - get (hl_timestamp v) 0%Q))
                     (overlap_threshold self)) eqn:Hnear; [|exact Hacc].
  destruct (flt s (get (hl_score text_hl) 5%Q + get (hl_score v) (1 # 2) * 2)%Q) eqn:Hgt;
    [|exact Hacc].
  apply flt_iff in Hgt. apply Qle_bool_iff in Hnear.
  exists v. split; [exact Hin|]. split; [reflexivity|]. split; [|exact Hnear].
  destruct best as [j0|].
  - destruct Hacc as (v0 & _ & _ & Hpos & _).
    eapply Qlt_trans; [exact Hpos|exact Hgt].
  - subst s. exact Hgt.
Qed.

(** *** The three loops of [fuse] *)

Lemma merge_step_invariant (self : HighlightFusion)
      (text_highlights visual_highlights : list highlight)
      (k : nat) (hl : highlight) (m : merging) :
  nth_error text_highlights k = Some hl ->
  merge_invariant text_highlights visual_highlights k m ->
  merge_invariant text_highlights visual_highlights (S k)
                  (merge_step self visual_highlights m (k, hl)).
Proof.
  intros Hk (Hsrc & Hlt & Hlv & Hndv & Hbv & Hndt & Hbt & Hcov).
  assert (Hkeep : merge_invariant text_highlights visual_highlights (S k) m).
  { repeat split; try assumption. intros i Hi. specialize (Hbt i Hi). lia. }
  unfold merge_step. cbn [fst snd].
  pose proof (best_match_spec self hl visual_highlights) as Hbest.
  destruct (best_match self hl visual_highlights) as [[j|] s]; [|exact Hkeep].
  destruct Hbest as (v & Hv & Hs & Hpos & _).
  destruct (mem j (used_visual_indices m)) eqn:Hmem; [exact Hkeep|].
  rewrite Hv.
  assert (Hnew : ~ In j (used_visual_indices m)).
  { intros Hin. apply mem_iff in Hin. congruence. }
  unfold merge_invariant. cbn [fused used_text_indices used_visual_indices].
  split; [|split; [|split; [|split; [|split; [|split; [|split]]]]]].
  - apply Forall_app. split; [exact Hsrc|]. constructor; [|constructor].
    split; [reflexivity|]. unfold score_by_source. cbn.
    split; [exact Hs|exact Hpos].
  - rewrite length_app. cbn. lia.
  - rewrite length_app. cbn. lia.
  - constructor; assumption.
  - intros j' [<-|Hj']; [|auto]. apply nth_error_Some. congruence.
  - constructor; [|exact Hndt]. intros Hin. specialize (Hbt k Hin). lia.
  - intros i [<-|Hi]; [lia|]. specialize (Hbt i Hi). lia.
  - intros i [<-|Hi].
    + exists hl. eexists. split; [exact Hk|].
      split; [apply in_or_app; right; left; reflexivity|]. cbn. auto.
    + destruct (Hcov i Hi) as (hl' & e & H1 & H2 & H3).
      exists hl', e. split; [exact H1|]. split; [apply in_or_app; now left|exact H3].
Qed.

Lemma merge_loop_invariant (self : HighlightFusion)
      (text_highlights visual_highlights : list highlight) :
  merge_invariant text_highlights visual_highlights (length text_highlights)
    (fold_left (merge_step self visual_highlights) (enumerate text_highlights)
               (mkMerging [] [] [])).
Proof.
  apply (fold_left_indexed (merge_step self visual_highlights)
           (merge_invariant text_highlights visual_highlights)).
  - unfold merge_invariant. cbn.
    repeat split; try constructor; intros ? [].
  - intros k x acc Hk Hacc. now apply merge_step_invariant.
Qed.

Lemma text_loop (used : list nat) (l : list (nat * highlight)) (acc : list entry) :
  fold_left (text_step used) l acc
  = acc ++ map (fun it => text_entry (snd it))
               (filter (fun it => negb (mem (fst it) used)) l).
Proof.
  revert acc. induction l as [|it l IH]; intros acc; cbn [fold_left filter map].
  - now rewrite app_nil_r.
  - rewrite IH. unfold text_step.
    destruct (mem (fst it) used); cbn [negb map]; [reflexivity|].
    rewrite <- app_assoc. reflexivity.
Qed.

Lemma visual_loop (used : list nat) (l : list (nat * highlight)) (acc : list entry) :
  exists added,
    fold_left (visual_step used) l acc = acc ++ added /\
    Forall (fun e => exists hl, e = visual_entry hl) added /\
    (length added <= length (filter (fun it => negb (mem (fst it) used)) l))%nat /\
    (length (acc ++ added) <= Nat.max (length acc) 10)%nat.
Proof.
  revert acc. induction l as [|it l IH]; intros acc; cbn [fold_left filter].
  - exists []. rewrite app_nil_r. repeat split; [constructor|cbn; lia|lia].
  - unfold visual_step at 2.
    destruct (negb (mem (fst it) used)) eqn:Hun; cbn [andb].
    + destruct (Nat.ltb_spec (length acc) 10) as [Hlt|Hge].
      * destruct (IH (acc ++ [visual_entry (snd it)])) as (added & Heq & Hall & Hlen & Hcap).
        exists (visual_entry (snd it) :: added).
        rewrite <- app_assoc in Heq, Hcap. cbn [app] in Heq, Hcap.
        split; [exact Heq|]. split; [constructor; [eexists; reflexivity|exact Hall]|].
        split; [cbn [length]; lia|].
        rewrite !length_app in *. cbn [length] in *. lia.
      * destruct (IH acc) as (added & Heq & Hall & Hlen & Hcap).
        exists added. split; [exact Heq|]. split; [exact Hall|].
        split; [cbn [length]; lia|exact Hcap].
    + destruct (IH acc) as (added & Heq & Hall & Hlen & Hcap).
      exists added. split; [exact Heq|]. split; [exact Hall|]. split; assumption.
Qed.

Lemma filter_split_length {A : Type} (f : A -> bool) (l : list A) :
  (length (filter f l) + length (filter (fun x => negb (f x)) l) = length l)%nat.
Proof.
  induction l as [|x l IH]; cbn [filter length]; [reflexivity|].
  destruct (f x); cbn [negb length]; lia.
Qed.

Lemma filter_enumerate_length {A : Type} (g : nat -> bool) (l : list A) :
  length (filter (fun it : nat * A => g (fst it)) (enumerate l))
  = length (filter g (seq 0 (length l))).
Proof.
  unfold enumerate. generalize 0%nat.
  induction l as [|x l IH]; intros s; cbn [length seq combine filter fst];
    [reflexivity|].
  destruct (g s); cbn [length]; rewrite IH; reflexivity.
Qed.

Lemma unused_count (used : list nat) (n : nat) :
  NoDup used -> (forall j, In j used -> (j < n)%nat) ->
  (length (filter (fun j => negb (mem j used)) (seq 0 n)) + length used = n)%nat.
Proof.
  intros Hnd Hb.
  pose proof (filter_split_length (fun j => mem j used) (seq 0 n)) as Hsplit.
  rewrite length_seq in Hsplit.
  assert (Hused : length (filter (fun j => mem j used) (seq 0 n)) = length used).
  { apply Permutation_length, NoDup_Permutation.
    - apply NoDup_filter, seq_NoDup.
    - exact Hnd.
    - intros x. rewrite filter_In, mem_iff, in_seq. split; [tauto|].
      intros Hx. specialize (Hb x Hx). split; [lia|exact Hx]. }
  lia.
Qed.

Lemma candidates_shape (self : HighlightFusion)
      (text_highlights visual_highlights : list highlight) :
  exists m added,
    merge_invariant text_highlights visual_highlights (length text_highlights) m /\
    let texts := map (fun it : nat * highlight => text_entry (snd it))
                     (filter (fun it => negb (mem (fst it) (used_text_indices m)))
                             (enumerate text_highlights)) in
    candidates self text_highlights visual_highlights = (fused m ++ texts) ++ added /\
    length (fused m ++ texts) = length text_highlights /\
    Forall (fun e => exists hl, e = visual_entry hl) added /\
    (length (fused m) + length added <= length visual_highlights)%nat /\
    (length ((fused m ++ texts) ++ added) <= Nat.max (length text_highlights) 10)%nat.
Proof.
  pose proof (merge_loop_invariant self text_highlights visual_highlights) as Hinv.
  set (m := fold_left (merge_step self visual_highlights) (enumerate text_highlights)
                      (mkMerging [] [] [])) in *.
  destruct (visual_loop (used_visual_indices m) (enumerate visual_highlights)
              (fold_left (text_step (used_text_indices m))
                         (enumerate text_highlights) (fused m)))
    as (added & Heq & Hall & Hlen & Hcap).
  rewrite text_loop in Heq, Hcap.
  exists m, added. split; [exact Hinv|]. cbv zeta.
  destruct Hinv as (_ & Hlt & Hlv & Hndv & Hbv & Hndt & Hbt & _).
  assert (Htexts : length (fused m ++
             map (fun it : nat * highlight => text_entry (snd it))
                 (filter (fun it => negb (mem (fst it) (used_text_indices m)))
                         (enumerate text_highlights)))
           = length text_highlights).
  { rewrite length_app, length_map.
    rewrite (filter_enumerate_length (fun i => negb (mem i (used_text_indices m)))).
    pose proof (unused_count _ _ Hndt Hbt). lia. }
  split; [unfold candidates; fold m; cbv zeta; rewrite text_loop; exact Heq|].
  split; [exact Htexts|]. split; [exact Hall|]. split.
  - rewrite (filter_enumerate_length (fun j => negb (mem j (used_visual_indices m))))
      in Hlen.
    pose proof (unused_count _ _ Hndv Hbv). lia.
  - rewrite Htexts in Hcap. exact Hcap.
Qed.

Lemma text_entry_by_source (hl : highlight) :
  score_by_source (text_entry hl) /\ has_text (text_entry hl) = true /\
  has_visual (text_entry hl) = false.
Proof. repeat split. Qed.

Lemma visual_entry_by_source (hl : highlight) :
  score_by_source (visual_entry hl) /\ has_text (visual_entry hl) = false /\
  has_visual (visual_entry hl) = true.
Proof. repeat split. Qed.

Lemma candidates_by_source (self : HighlightFusion)
      (text_highlights visual_highlights : list highlight) (e : entry) :
  In e (candidates self text_highlights visual_highlights) -> score_by_source e.
Proof.
  destruct (candidates_shape self text_highlights visual_highlights)
    as (m & added & Hinv & Heq & _ & Hall & _).
  cbv zeta in Heq. rewrite Heq. intros Hin.
  apply in_app_or in Hin as [Hin|Hin]; [apply in_app_or in Hin as [Hin|Hin]|].
  - destruct Hinv as (Hsrc & _). rewrite Forall_forall in Hsrc.
    apply (Hsrc e Hin).
  - apply in_map_iff in Hin as (it & <- & _). apply text_entry_by_source.
  - rewrite Forall_forall in Hall. destruct (Hall e Hin) as [hl ->].
    apply visual_entry_by_source.
Qed.

Lemma fuse_incl (self : HighlightFusion)
      (text_highlights visual_highlights : list highlight) (e : entry) :
  In e (fuse self text_highlights visual_highlights) ->
  In e (candidates self text_highlights visual_highlights).
Proof.
  unfold fuse. intros H. apply in_firstn in H.
  eapply Permutation_in; [apply sort_by_score_perm|exact H].
Qed.

(** X18. The score of every entry [fuse] returns is made up by its source:
    a fused entry scores the text score plus twice the visual score,
    which is positive; an entry from text alone scores its text score
    and has visual score 0; an entry from vision alone scores twice its
    visual score and has text score 0. *)
Theorem fuse_scores_by_source (self : HighlightFusion)
        (text_highlights visual_highlights : list highlight) (e : entry) :
  In e (fuse self text_highlights visual_highlights) -> score_by_source e.
Proof.
  intros H. eapply candidates_by_source, fuse_incl, H.
Qed.

(** X19. Before the cut to five, every text highlight is in the merged
    list exactly once, fused or on its own: the entries with a text
    part are as many as the text highlights, and for each text
    highlight there is one with its timestamp, description and score
    (0, [Exciting play] and 5 for a missing key). *)
Theorem every_text_highlight_is_merged (self : HighlightFusion)
        (text_highlights visual_highlights : list highlight) :
  let merged := candidates self text_highlights visual_highlights in
  length (filter has_text merged) = length text_highlights /\
  forall i hl, nth_error text_highlights i = Some hl ->
    exists e, In e merged /\ has_text e = true /\
              timestamp e = get (hl_timestamp hl) 0%Q /\
              description e = get (hl_description hl) Defaults.exciting_play /\
              text_score e = get (hl_score hl) 5%Q.
Proof.
  destruct (candidates_shape self text_highlights visual_highlights)
    as (m & added & Hinv & Heq & Hlen & Hall & _).
  cbv zeta in *. rewrite Heq.
  set (texts := map (fun it : nat * highlight => text_entry (snd it))
                    (filter (fun it => negb (mem (fst it) (used_text_indices m)))
                            (enumerate text_highlights))) in *.
  destruct Hinv as (Hsrc & _ & _ & _ & _ & _ & _ & Hcov).
  assert (Hfused : forall e, In e (fused m) -> has_text e = true).
  { intros e He. rewrite Forall_forall in Hsrc. destruct (Hsrc e He) as [Hs _].
    unfold has_text. rewrite Hs. reflexivity. }
  assert (Htexts : forall e, In e texts -> has_text e = true).
  { intros e He. apply in_map_iff in He as (it & <- & _). reflexivity. }
  split.
  - rewrite filter_app.
    assert (Hkeep : filter has_text (fused m ++ texts) = fused m ++ texts).
    { apply forallb_filter_id. apply forallb_forall. intros e He.
      apply in_app_or in He as [He|He]; auto. }
    assert (Hdrop : filter has_text added = []).
    { clear - Hall. induction Hall as [|e l [hl ->] _ IH]; [reflexivity|].
      cbn [filter]. exact IH. }
    rewrite Hkeep, Hdrop, app_nil_r. exact Hlen.
  - intros i hl Hi.
    destruct (mem i (used_text_indices m)) eqn:Hmem.
    + apply mem_iff in Hmem. destruct (Hcov i Hmem) as (hl' & e & H1 & H2 & H3 & H4 & H5).
      rewrite Hi in H1. injection H1 as <-.
      exists e. split; [apply in_or_app; left; apply in_or_app; now left|].
      split; [now apply Hfused|]. auto.
    + exists (text_entry hl). split.
      * apply in_or_app. left. apply in_or_app. right.
        apply in_map_iff. exists (i, hl). split; [reflexivity|].
        apply filter_In. split; [now apply in_enumerate|].
        cbn [fst]. rewrite Hmem. reflexivity.
      * repeat split.
Qed.

(** X20. No visual highlight is counted twice: the merged entries that use
    a visual highlight, fused or on their own, are at most as many as
    the visual highlights; and visual highlights are added only up to
    ten entries, so the merged list has at most as many entries as
    there are text highlights, or ten. *)
Theorem visual_highlights_used_once (self : HighlightFusion)
        (text_highlights visual_highlights : list highlight) :
  let merged := candidates self text_highlights visual_highlights in
  (length (filter has_visual merged) <= length visual_highlights)%nat /\
  (length merged <= Nat.max (length text_highlights) 10)%nat.
Proof.
  destruct (candidates_shape self text_highlights visual_highlights)
    as (m & added & Hinv & Heq & Hlen & Hall & Hvis & Hcap).
  cbv zeta in *. rewrite Heq. split; [|exact Hcap].
  rewrite !filter_app, !length_app.
  assert (Htexts : forall l : list (nat * highlight),
            filter has_visual (map (fun it => text_entry (snd it)) l) = []).
  { induction l as [|it l IH]; [reflexivity|]. cbn [map filter]. exact IH. }
  rewrite Htexts. cbn [length].
  pose proof (filter_split_length has_visual (fused m)).
  pose proof (filter_split_length has_visual added). lia.
Qed.

Lemma sorted_nth_error (R : entry -> entry -> Prop) (l : list entry)
      (i j : nat) (a b : entry) :
  StronglySorted R l -> (i < j)%nat ->
  nth_error l i = Some a -> nth_error l j = Some b -> R a b.
Proof.
  intros Hs. revert i j. induction Hs as [|x rest Hs IH Hall]; intros i j Hij Ha Hb.
  - destruct i; discriminate.
  - destruct j as [|j]; [lia|]. cbn [nth_error] in Hb.
    destruct i as [|i]; cbn [nth_error] in Ha.
    + injection Ha as <-. rewrite Forall_forall in Hall.
      apply Hall. eapply nth_error_In. exact Hb.
    + apply (IH i j); [lia|assumption|assumption].
Qed.

Lemma fuse_sorted (self : HighlightFusion)
      (text_highlights visual_highlights : list highlight) :
  StronglySorted scores_at_least (fuse self text_highlights visual_highlights) /\
  (length (fuse self text_highlights visual_highlights) <= 5)%nat.
Proof.
  unfold fuse. split; [|apply firstn_le_length].
  apply sorted_firstn_skipn, sort_by_score_sorted.
Qed.

(** X21. The clips made from the fused highlights are at most five, their
    ids are the ranks 0 to 4 of their highlights in the order of
    decreasing score, and a clip with a larger id never has a larger
    score. *)
Theorem clips_ranked_by_score (self : HighlightFusion)
        (text_highlights visual_highlights : list highlight)
        (create_clip : Q -> nat -> String.string) :
  let clips := create_all_clips create_clip
                 (map as_highlight (fuse self text_highlights visual_highlights)) in
  (length clips <= 5)%nat /\
  (forall c, In c clips -> (clip_id c < 5)%nat) /\
  (forall c c', In c clips -> In c' clips -> (clip_id c < clip_id c')%nat ->
                (clip_score c' <= clip_score c)%Q).
Proof.
  cbv zeta.
  destruct (fuse_sorted self text_highlights visual_highlights) as [Hsorted Hlen].
  set (top := fuse self text_highlights visual_highlights) in *.
  destruct (create_clips_from_spec create_clip (map as_highlight top) 0)
    as (Hin & _ & _ & Hclips).
  fold (create_all_clips create_clip (map as_highlight top)) in Hin, Hclips.
  rewrite length_map in Hclips.
  assert (Hentry : forall c, In c (create_all_clips create_clip (map as_highlight top)) ->
            exists e, nth_error top (clip_id c) = Some e /\ clip_score c = score e).
  { intros c Hc. apply Hin in Hc. destruct Hc as (k & hl & Hk & _ & ->).
    rewrite nth_error_map in Hk. cbn [Nat.add clip_of clip_id clip_score].
    destruct (nth_error top k) as [e|]; [|discriminate].
    injection Hk as <-. exists e. split; reflexivity. }
  split; [lia|]. split.
  - intros c Hc. destruct (Hentry c Hc) as (e & He & _).
    assert (clip_id c < length top)%nat by (apply nth_error_Some; congruence). lia.
  - intros c c' Hc Hc' Hlt.
    destruct (Hentry c Hc) as (e & He & ->).
    destruct (Hentry c' Hc') as (e' & He' & ->).
    exact (sorted_nth_error scores_at_least top _ _ e e' Hsorted Hlt He He').
Qed.

End FusionFacts.

Lemma fuse_returns_top_five_witness :
  map Fusion.source_of (Fusion.fuse Fusion.init Takes.highlights Reel.visual_highlights)
  = [Fusion.from_both; Fusion.from_text; Fusion.from_text; Fusion.from_visual] /\
  Permutation (Fusion.fuse Fusion.init Takes.highlights Reel.visual_highlights)
              (Fusion.candidates Fusion.init Takes.highlights Reel.visual_highlights).
Proof.
  split; [reflexivity|].
  apply (FusionFacts.fuse_returns_top_five Fusion.init Takes.highlights
           Reel.visual_highlights).
  cbn. lia.
Defined.

Lemma fuse_scores_by_source_witness :
  Forall score_by_source
         (Fusion.fuse Fusion.init Takes.highlights Reel.visual_highlights).
Proof.
  apply Forall_forall. intros e He.
  exact (FusionFacts.fuse_scores_by_source Fusion.init Takes.highlights
           Reel.visual_highlights e He).
Defined.

Lemma every_text_highlight_is_merged_witness :
  exists e,
    In e (Fusion.candidates Fusion.init Takes.highlights Reel.visual_highlights) /\
    has_text e = true /\ Fusion.timestamp e = 0%Q /\ Fusion.text_score e = 5%Q.
Proof.
  destruct (FusionFacts.every_text_highlight_is_merged Fusion.init Takes.highlights
              Reel.visual_highlights) as [_ H].
  destruct (H 1%nat Takes.untimed eq_refl) as (e & H1 & H2 & H3 & _ & H5).
  exists e. auto.
Defined.

Lemma clips_ranked_by_score_witness :
  map clip_id (create_all_clips Takes.create_clip
                 (map Fusion.as_highlight
                      (Fusion.fuse Fusion.init Takes.highlights Reel.visual_highlights)))
  = [0; 2; 3]%nat /\
  Forall (fun c => (clip_id c < 5)%nat)
         (create_all_clips Takes.create_clip
            (map Fusion.as_highlight
                 (Fusion.fuse Fusion.init Takes.highlights Reel.visual_highlights))).
Proof.
  split; [reflexivity|]. apply Forall_forall.
  apply (FusionFacts.clips_ranked_by_score Fusion.init Takes.highlights
           Reel.visual_highlights Takes.create_clip).
Defined.

Lemma detect_players_taller_than_wide_witness :
  In (600, 250, 100, 220) (detect_players Footage.wide_and_tall) /\
  ~ In (0, 0, 100, 50) (detect_players Footage.wide_and_tall).
Proof.
  split.
  - apply (detect_players_taller_than_wide Footage.wide_and_tall 600 250 100 220).
    split; [right; left; reflexivity|lia].
  - intros H.
    apply (detect_players_taller_than_wide Footage.wide_and_tall 0 0 100 50) in H.
    lia.
Defined.
